(** * archiver.py: a capacity-bounded archive repository

    A shallow embedding of [archiver.py] (Python 2): the catalog kept in
    [meta.db] (tables [items], [versions], [config]), the entries of the
    repository root, the four command handlers and the [cleanup] pass that
    runs after every handler.

    Layout: Python builtins used by the program, the regular expressions
    handed to [listItems], the data model, the monad of effects, the program
    functions in source order, then the theorems. *)

From Stdlib Require Import ZArith Ascii String List Lia.
From stdpp Require Import base option gmap strings list fin_maps pretty.

Local Open Scope string_scope.
Local Open Scope Z_scope.

(** ** Python builtins *)

Module Py.

(** [str(n)] for an integer: its decimal text. *)
Definition str (n : Z) : string := pretty n.

(** [sys.maxint] of a 64-bit CPython 2: beyond it an integer is a [long] and
    its [repr] carries the suffix [L]. *)
Definition maxint : Z := 2 ^ 63 - 1.

Definition repr (n : Z) : string :=
  if (- maxint - 1 <=? n) && (n <=? maxint) then str n else str n +:+ "L".

Definition digit_of_ascii (c : ascii) : option N :=
  let n := N_of_ascii c in
  if ((48 <=? n) && (n <=? 57))%N then Some (n - 48)%N else None.

Fixpoint parse_digits (s : string) (acc : N) : option N :=
  match s with
  | EmptyString => Some acc
  | String c s' =>
      match digit_of_ascii c with
      | Some d => parse_digits s' (acc * 10 + d)%N
      | None => None
      end
  end.

Definition parse_decimal (s : string) : option N :=
  match s with
  | EmptyString => None
  | _ => parse_digits s 0
  end.

(** The integer literals [[+-]?[0-9]+].  [None] stands for a text that is not
    such a literal. *)
Definition int_literal (s : string) : option Z :=
  match s with
  | String "-" s' => (fun n => - Z.of_N n) <$> parse_decimal s'
  | String "+" s' => Z.of_N <$> parse_decimal s'
  | _ => Z.of_N <$> parse_decimal s
  end.

(** Round an integer to the nearest binary64 value, ties to even.  Integers
    below [2^53] in magnitude are binary64 values already. *)
Definition round53 (z : Z) : Z :=
  let a := Z.abs z in
  if a <? 2 ^ 53 then z
  else
    let k := Z.log2 a - 52 in
    let m := Z.shiftr a k in
    let r := Z.land a (Z.ones k) in
    let half := Z.shiftl 1 (k - 1) in
    let m' := if (half <? r) || ((half =? r) && Z.odd m) then m + 1 else m in
    Z.sgn z * Z.shiftl m' k.

(** A binary64 value reached from an integer literal: an integer, or an
    infinity when the magnitude is [2^1024] or more. *)
Inductive float := Finite (z : Z) | Inf.

Definition to_float (z : Z) : float :=
  let r := round53 z in
  if Z.abs r <? 2 ^ 1024 then Finite r else Inf.

(** [n * x] for an integer [n] of at most 53 bits and a float [x]. *)
Definition mul_int_float (n : Z) (x : float) : float :=
  match x with
  | Finite z => to_float (n * z)
  | Inf => if n =? 0 then Finite 0 else Inf
  end.

(** ** [os.path] *)

Fixpoint basename_go (p acc : string) : string :=
  match p with
  | EmptyString => acc
  | String c r => if Ascii.eqb c "/" then basename_go r r else basename_go r acc
  end.

(** [path.basename(p)]: what follows the last slash. *)
Definition basename (p : string) : string := basename_go p p.

Fixpoint rstrip_slash (s : string) : string :=
  match s with
  | EmptyString => EmptyString
  | String c r =>
      match rstrip_slash r with
      | EmptyString => if Ascii.eqb c "/" then EmptyString else String c EmptyString
      | r' => String c r'
      end
  end.

(** [path.dirname(p)]: up to the last slash, trailing slashes dropped unless
    nothing else is left. *)
Definition dirname (p : string) : string :=
  let head := substring 0 (String.length p - String.length (basename p)) p in
  match rstrip_slash head with
  | EmptyString => head
  | h => h
  end.

Definition ends_with_slash (s : string) : bool :=
  match get (String.length s - 1) s with
  | Some c => Ascii.eqb c "/"
  | None => false
  end.

(** [path.join(a, b)] *)
Definition join (a b : string) : string :=
  match b with
  | String "/" _ => b
  | _ => if (String.eqb a "") || ends_with_slash a then a +:+ b
         else a +:+ "/" +:+ b
  end.

(** ["%03d" % n] for [n >= 0]. *)
Definition fmt_03d (n : Z) : string :=
  let s := str n in
  match String.length s with
  | 1%nat => "00" +:+ s
  | 2%nat => "0" +:+ s
  | _ => s
  end.

(** [" ".join(l)] and ["".join(l)] *)
Definition join_with (sep : string) (l : list string) : string :=
  String.concat sep l.

(** [s[-1]] and [s[:-1]] *)
Fixpoint last_char (s : string) : option ascii :=
  match s with
  | EmptyString => None
  | String c EmptyString => Some c
  | String _ s' => last_char s'
  end.

Fixpoint drop_last (s : string) : string :=
  match s with
  | EmptyString => EmptyString
  | String c EmptyString => EmptyString
  | String c s' => String c (drop_last s')
  end.

End Py.

(** ** Compiled regular expressions

    [listItems] receives its pattern compiled by [re.compile].  The model
    takes the pattern as a syntax tree over the core operators of the [re]
    syntax and decides a match with derivatives. *)

Module re.

Inductive pattern :=
  | Never                      (* matches nothing; only derivatives build it *)
  | Eps                        (* the empty pattern *)
  | Chr (c : ascii)            (* a literal character *)
  | Dot                        (* [.]: any character but a newline *)
  | Cat (p q : pattern)        (* [pq] *)
  | Alt (p q : pattern)        (* [p|q] *)
  | Star (p : pattern).        (* [p*] *)

Definition newline : ascii := ascii_of_nat 10.

Fixpoint nullable (p : pattern) : bool :=
  match p with
  | Never | Chr _ | Dot => false
  | Eps | Star _ => true
  | Cat p q => nullable p && nullable q
  | Alt p q => nullable p || nullable q
  end.

Fixpoint deriv (c : ascii) (p : pattern) : pattern :=
  match p with
  | Never | Eps => Never
  | Chr d => if Ascii.eqb c d then Eps else Never
  | Dot => if Ascii.eqb c newline then Never else Eps
  | Cat p q =>
      if nullable p then Alt (Cat (deriv c p) q) (deriv c q)
      else Cat (deriv c p) q
  | Alt p q => Alt (deriv c p) (deriv c q)
  | Star p => Cat (deriv c p) (Star p)
  end.

(** [p.match(s)]: does the pattern match some prefix of [s], that is, at the
    start of [s]?  (The truth value of the match object.) *)
Fixpoint match_ (p : pattern) (s : string) : bool :=
  nullable p ||
  match s with
  | EmptyString => false
  | String c s' => match_ (deriv c p) s'
  end.

(** [p.search(s)]: does the pattern match at some position of [s]? *)
Fixpoint search (p : pattern) (s : string) : bool :=
  match_ p s ||
  match s with
  | EmptyString => false
  | String _ s' => search p s'
  end.

(** The strings a pattern matches in full. *)
Inductive lang : pattern -> string -> Prop :=
  | lang_eps : lang Eps ""
  | lang_chr c : lang (Chr c) (String c "")
  | lang_dot c : c <> newline -> lang Dot (String c "")
  | lang_cat p q s t : lang p s -> lang q t -> lang (Cat p q) (s +:+ t)
  | lang_alt_l p q s : lang p s -> lang (Alt p q) s
  | lang_alt_r p q s : lang q s -> lang (Alt p q) s
  | lang_star_nil p : lang (Star p) ""
  | lang_star_cons p s t : lang p s -> lang (Star p) t -> lang (Star p) (s +:+ t).

End re.

(** ** Data model *)

(** Verbosity levels, in the order of the [enum.Enum] call. *)
Inductive Level := Fatal | Error | Info | Verbose.

Definition Level_index (l : Level) : Z :=
  match l with Fatal => 0 | Error => 1 | Info => 2 | Verbose => 3 end.

Definition Level_str (l : Level) : string :=
  match l with
  | Fatal => "Fatal" | Error => "Error" | Info => "Info" | Verbose => "Verbose"
  end.

Definition LockFile : string := ".lock".
Definition DbFile : string := "meta.db".

(** The texts the program writes into [items.status]. *)
Inductive Status := Archived | Restored | Deleted | Corrupted.

Definition Status_str (s : Status) : string :=
  match s with
  | Archived => "Archived" | Restored => "Restored"
  | Deleted => "Deleted" | Corrupted => "Corrupted"
  end.

Global Instance Status_eq_dec : EqDecision Status.
Proof. solve_decision. Defined.

(** A row of table [items]. *)
Module Item.
Record row := Row {
  name : string;
  version : Z;
  timestamp : string;      (* [CURRENT_TIMESTAMP]: the text YYYY-MM-DD HH:MM:SS *)
  status : Status;
  source : string;
  archive : string;
}.
Definition set_status (s : Status) (r : row) : row :=
  Row (name r) (version r) (timestamp r) s (source r) (archive r).
End Item.

(** The three tables of [meta.db].  [items] is kept in rowid order;
    [versions] and [config] are keyed by their primary key. *)
Module Db.
Record t := Make {
  items : list Item.row;
  versions : gmap string Z;
  config : gmap string string;
}.
Definition empty : t := Make [] ∅ ∅.
Definition set_items (f : list Item.row -> list Item.row) (d : t) : t :=
  Make (f (items d)) (versions d) (config d).
Definition set_versions (f : gmap string Z -> gmap string Z) (d : t) : t :=
  Make (items d) (f (versions d)) (config d).
Definition set_config (f : gmap string string -> gmap string string) (d : t) : t :=
  Make (items d) (versions d) (f (config d)).
End Db.

(** What a name directly under the repository root is. *)
Inductive kind := RegularFile | Directory | Special.

Record entry := Entry {
  e_kind : kind;           (* [path.isfile], [path.isdir], or neither *)
  st_size : N;             (* [os.stat(...).st_size] *)
  remove_error : option string;
    (* the text of the exception [os.remove] / [shutil.rmtree] raises for
       this entry; [None] when the removal goes through *)
}.

(** Everything the program reads or changes. *)
Record world := World {
  conn : Db.t;                 (* the catalog as the connection sees it *)
  disk : Db.t;                 (* the catalog as of the last commit *)
  files : gmap string entry;   (* the entries directly under the root *)
  verbosity : Level;
  stdout : list string;
  stderr : list string;
  calls : list (list string);  (* the command lines run as subprocesses *)
}.

Definition set_conn (f : Db.t -> Db.t) (w : world) : world :=
  World (f (conn w)) (disk w) (files w) (verbosity w) (stdout w) (stderr w) (calls w).
Definition set_disk (d : Db.t) (w : world) : world :=
  World (conn w) d (files w) (verbosity w) (stdout w) (stderr w) (calls w).
Definition set_files (f : gmap string entry -> gmap string entry) (w : world) : world :=
  World (conn w) (disk w) (f (files w)) (verbosity w) (stdout w) (stderr w) (calls w).
Definition set_verbosity (l : Level) (w : world) : world :=
  World (conn w) (disk w) (files w) l (stdout w) (stderr w) (calls w).
Definition add_stdout (line : string) (w : world) : world :=
  World (conn w) (disk w) (files w) (verbosity w) (stdout w ++ [line])%list (stderr w) (calls w).
Definition add_stderr (line : string) (w : world) : world :=
  World (conn w) (disk w) (files w) (verbosity w) (stdout w) (stderr w ++ [line])%list (calls w).
Definition add_call (c : list string) (w : world) : world :=
  World (conn w) (disk w) (files w) (verbosity w) (stdout w) (stderr w) (calls w ++ [c])%list.

(** ** Effects: state and exceptions *)

Inductive exn :=
  | SystemExit (code : Z)
  | OSError
  | OperationalError
  | IntegrityError
  | CalledProcessError
  | TypeError
  | IndexError
  | ValueError
  | OverflowError
  | KeyError
  | OutOfModel.   (* not a Python exception: the input leaves the modelled
                     fragment of [float] *)

Inductive result (A : Type) := Ok (a : A) | Raise (e : exn).
Arguments Ok {A} a.
Arguments Raise {A} e.

Definition M (A : Type) : Type := world -> result A * world.

Global Instance M_ret : MRet M := fun A a w => (Ok a, w).
Global Instance M_bind : MBind M := fun A B f m w =>
  match m w with
  | (Ok a, w') => f a w'
  | (Raise e, w') => (Raise e, w')
  end.

Definition raise {A} (e : exn) : M A := fun w => (Raise e, w).
Definition gets {A} (f : world -> A) : M A := fun w => (Ok (f w), w).
Definition modify (f : world -> world) : M unit := fun w => (Ok tt, f w).

(** [for x in l: body(x, acc)] with the loop-carried variables in [acc]. *)
Fixpoint for_ {A S} (l : list A) (body : A -> S -> M S) (acc : S) : M S :=
  match l with
  | [] => mret acc
  | x :: l' => acc' ← body x acc; for_ l' body acc'
  end.

(** [conn.commit()] and [conn.rollback()] *)
Definition commit : M unit := modify (fun w => set_disk (conn w) w).
Definition rollback : M unit := modify (fun w => set_conn (fun _ => disk w) w).

(** [print line] *)
Definition print (line : string) : M unit := modify (add_stdout line).

(** ** The operating system *)

(** [os.open(file, os.O_RDWR | os.O_CREAT)] on a name under the root: the
    file is created when absent; a directory cannot be opened for writing. *)
Definition os_open_creat (name : string) : M unit := fun w =>
  match files w !! name with
  | None => (Ok tt, set_files (insert name (Entry RegularFile 0 None)) w)
  | Some e =>
      match e_kind e with
      | Directory => (Raise OSError, w)
      | _ => (Ok tt, w)
      end
  end.

(** [os.stat(path.join(root, name)).st_size] *)
Definition os_stat_size (name : string) : M Z := fun w =>
  match files w !! name with
  | Some e => (Ok (Z.of_N (st_size e)), w)
  | None => (Raise OSError, w)
  end.

(** [os.listdir(root)] *)
Definition os_listdir : M (list string) :=
  gets (fun w => (map_to_list (files w)).*1).

(** ** SQL statements *)

(** [ORDER BY timestamp ASC]: rows with equal timestamps stay in rowid
    order. *)
Fixpoint insert_by_timestamp (r : Item.row) (l : list Item.row) : list Item.row :=
  match l with
  | [] => [r]
  | x :: l' =>
      if String.leb (Item.timestamp r) (Item.timestamp x) then r :: l
      else x :: insert_by_timestamp r l'
  end.

Definition order_by_timestamp (l : list Item.row) : list Item.row :=
  foldr insert_by_timestamp [] l.

(** [SELECT archive FROM items WHERE status = 'Archived' ORDER BY timestamp ASC] *)
Definition select_archived_archives (d : Db.t) : list string :=
  Item.archive <$>
    order_by_timestamp (filter (fun r => Item.status r = Archived) (Db.items d)).

(** [UPDATE items SET status = :status WHERE name = :name] *)
Definition update_status_by_name (s : Status) (n : string) (d : Db.t) : Db.t :=
  Db.set_items
    (fmap (fun r => if decide (Item.name r = n) then Item.set_status s r else r)) d.

(** [UPDATE items SET status = :status WHERE name = :name AND version = :version] *)
Definition update_status_by_key (s : Status) (n : string) (v : Z) (d : Db.t) : Db.t :=
  Db.set_items
    (fmap (fun r => if decide (Item.name r = n /\ Item.version r = v)
                    then Item.set_status s r else r)) d.

(** [INSERT OR IGNORE INTO versions VALUES (:name, 0)]: ignored when the name
    has a row already or breaks [CHECK(name <> '')]. *)
Definition insert_or_ignore_version (n : string) (d : Db.t) : Db.t :=
  if decide (n = "") then d
  else match Db.versions d !! n with
       | Some _ => d
       | None => Db.set_versions (insert n 0) d
       end.

(** [UPDATE versions SET version = version + 1 WHERE name = :name] *)
Definition increment_version (n : string) (d : Db.t) : Db.t :=
  Db.set_versions (alter (fun v => v + 1) n) d.

(** The constraints of table [items]: the primary key [(name, version)],
    [archive UNIQUE], and the [CHECK]s. *)
Definition items_accept (r : Item.row) (l : list Item.row) : Prop :=
  Item.name r <> "" /\ 0 <= Item.version r /\ Item.source r <> "" /\
  Item.archive r <> "" /\
  Forall (fun x => ~ (Item.name x = Item.name r /\ Item.version x = Item.version r) /\
                   Item.archive x <> Item.archive r) l.

Global Instance items_accept_dec r l : Decision (items_accept r l).
Proof. unfold items_accept. apply _. Defined.

(** [INSERT INTO items VALUES (...)] *)
Definition insert_item (r : Item.row) : M unit := fun w =>
  if decide (items_accept r (Db.items (conn w)))
  then (Ok tt, set_conn (Db.set_items (fun l => (l ++ [r])%list)) w)
  else (Raise IntegrityError, w).

(** [UPDATE config SET value = :value WHERE key = :key] with an integer bound
    to [:value]: SQLite takes integers of 64 bits, and the TEXT column keeps
    the integer as its decimal text. *)
Definition update_config (key : string) (value : Z) : M unit := fun w =>
  if (value <? - 2 ^ 63) || (2 ^ 63 - 1 <? value) then (Raise OverflowError, w)
  else (Ok tt, set_conn (Db.set_config (alter (fun _ => Py.str value) key)) w).

(** ** The program *)

(** [log]: the line goes to stderr when the level is within the verbosity;
    a [Fatal] line ends the process with exit code 1.  (The stack trace
    printed before the exit is left out.) *)
Definition log (level : Level) (args : list string) : M unit :=
  v ← gets verbosity;
  (if Level_index level <=? Level_index v
   then modify (add_stderr (Level_str level +:+ ": " +:+ Py.join_with "" args))
   else mret tt);;
  match level with
  | Fatal => raise (SystemExit 1)
  | _ => mret tt
  end.

Definition exclusiveLock (root name : string) : M unit :=
  log Info ["Waiting for exclusive lock on file `"; Py.join root name; "`"];;
  os_open_creat name.

(** [sqlite3.connect(dbfile, ...)]: the connection starts from what is on
    disk; the file is created when absent. *)
Definition connect (name : string) : M unit := fun w =>
  match files w !! name with
  | None =>
      (Ok tt, set_conn (fun _ => disk w)
                (set_files (insert name (Entry RegularFile 0 None)) w))
  | Some e =>
      match e_kind e with
      | Directory => (Raise OperationalError, w)
      | _ => (Ok tt, set_conn (fun _ => disk w) w)
      end
  end.

(** The tables exist from the start in the model (empty); what is left of the
    script is the default [size]. *)
Definition initializeDatabase : M unit :=
  modify (set_conn (Db.set_config (fun c =>
    match c !! "size" with
    | Some _ => c
    | None => <["size" := "10737418240"]> c
    end)));;
  commit.

Definition deleteFileOrDirectory (root file : string) : M unit :=
  let fullPath := Py.join root file in
  let errorHandler (path e : string) : M unit :=
    log Error ["Failed to cleanup file `"; path; "`: "; e] in
  let remove (e : entry) : M unit :=
    match remove_error e with
    | None => modify (set_files (delete file))
    | Some err => errorHandler fullPath err
    end in
  en ← gets (fun w => files w !! file);
  match en with
  | None => mret tt
  | Some e =>
      match e_kind e with
      | RegularFile => log Info ["Deleting file `"; file; "`"];; remove e
      | Directory => log Info ["Deleting directory `"; file; "`"];; remove e
      | Special => mret tt
      end
  end.

(** [int(text)] on the decimal texts kept in table [config]. *)
Definition int_ (text : string) : M Z :=
  match Py.int_literal text with
  | Some z => mret z
  | None => raise ValueError
  end.

Definition getConfig_Converters (key : string) : option (string -> M Z) :=
  if decide (key = "size") then Some int_ else None.

Definition getConfig (key : string) : M Z :=
  match getConfig_Converters key with
  | None => log Fatal ["Invalid key `"; key; "`"]
  | Some _ => mret tt
  end;;
  row ← gets (fun w => Db.config (conn w) !! key);
  match row with
  | None => log Fatal ["Key `"; key; "` not found in config table"]
  | Some _ => mret tt
  end;;
  match getConfig_Converters key, row with
  | Some converter, Some value => converter value
  | None, _ => raise KeyError
  | _, None => raise TypeError
  end.

(** The two loops and the sweep of [cleanup]. *)
Definition cleanup_stat (archive : string) (acc : gmap string Z * Z)
    : M (gmap string Z * Z) :=
  let '(archiveSizes, totalSize) := acc in
  archiveSize ← os_stat_size archive;
  log Verbose ["Size of archive `"; archive; "`: "; Py.str archiveSize];;
  mret (<[archive := archiveSize]> archiveSizes, totalSize + archiveSize).

Definition cleanup_evict (limitSize : Z) (archiveSizes : gmap string Z)
    (archive : string) (acc : Z * gset string) : M (Z * gset string) :=
  let '(totalSize, excludeFromDeletion) := acc in
  if limitSize <? totalSize then
    log Info ["Decide to delete `"; archive; "` because of total size limit"];;
    modify (set_conn (update_status_by_name Deleted archive));;
    archiveSize ← match archiveSizes !! archive with
                  | Some n => mret n
                  | None => raise KeyError
                  end;
    mret (totalSize - archiveSize, excludeFromDeletion ∖ {[archive]})
  else mret (totalSize, excludeFromDeletion).

Definition cleanup_sweep (root : string) (excludeFromDeletion : gset string)
    (file : string) (_ : unit) : M unit :=
  if decide (file ∈ excludeFromDeletion) then mret tt
  else deleteFileOrDirectory root file.

Definition cleanup (root : string) : M unit :=
  archives ← gets (fun w => select_archived_archives (conn w));
  let excludeFromDeletion : gset string := list_to_set archives in
  limitSize ← getConfig "size";
  '(archiveSizes, totalSize) ← for_ archives cleanup_stat (∅, 0);
  log Info ["Total size of existing archive: "; Py.str totalSize];;
  '(totalSize, excludeFromDeletion) ←
    for_ archives (cleanup_evict limitSize archiveSizes)
      (totalSize, excludeFromDeletion);
  commit;;
  let excludeFromDeletion := excludeFromDeletion ∪ {[DbFile; LockFile]} in
  listing ← os_listdir;
  for_ listing (cleanup_sweep root excludeFromDeletion) tt.

(** What [tar -czf] does: its exit status, and the entry it leaves at the
    path of the new archive, if any. *)
Record tar_result := Tar {
  tar_returncode : Z;
  tar_written : option entry;
}.

(** [subprocess.check_call(commands)] for [tar -czf root/archive]. *)
Definition check_call (commands : list string) (archive : string)
    (tar : tar_result) : M unit :=
  modify (add_call commands);;
  match tar_written tar with
  | Some e => modify (set_files (insert archive e))
  | None => mret tt
  end;;
  if tar_returncode tar =? 0 then mret tt else raise CalledProcessError.

(** [subprocess.call(commands)] for [tar -xzf]: the extraction writes under
    the target directory, taken to lie outside the repository root. *)
Definition call (commands : list string) (returncode : Z) : M Z :=
  modify (add_call commands);;
  mret returncode.

(** [archive].  [source] is the path after [path.abspath]; [now] is what
    [CURRENT_TIMESTAMP] yields. *)
Definition archive (root source now : string) (tar : tar_result) : M unit :=
  let dir := Py.dirname source in
  let base := Py.basename source in
  modify (set_conn (insert_or_ignore_version base));;
  modify (set_conn (increment_version base));;
  row ← gets (fun w => Db.versions (conn w) !! base);
  version ← match row with
            | Some v => mret v
            | None => raise TypeError
            end;
  commit;;
  let archive := base +:+ "-" +:+ Py.str version +:+ ".tar.gz" in
  let fullPath := Py.join root archive in
  let commands := ["tar"; "--checkpoint=.10000"; "-C"; dir; "-czf"; fullPath; base] in
  log Info ["Running command "; Py.join_with " " commands];;
  check_call commands archive tar;;
  print "";;
  insert_item (Item.Row base version now Archived source archive);;
  commit.

Definition SuffixToMultiplier (c : ascii) : option Z :=
  match c with
  | "k" => Some (10 ^ 3)
  | "m" => Some (10 ^ 6)
  | "g" => Some (10 ^ 9)
  | "t" => Some (10 ^ 12)
  | "K" => Some (Z.shiftl 1 10)
  | "M" => Some (Z.shiftl 1 20)
  | "G" => Some (Z.shiftl 1 30)
  | "T" => Some (Z.shiftl 1 40)
  | _ => None
  end%char.

(** [float(s)] on integer literals; the empty text is a [ValueError]. *)
Definition float_ (s : string) : M Py.float :=
  match s with
  | EmptyString => raise ValueError
  | _ =>
      match Py.int_literal s with
      | Some z => mret (Py.to_float z)
      | None => raise OutOfModel
      end
  end.

(** [int(x)] for a float. *)
Definition int_of_float (x : Py.float) : M Z :=
  match x with
  | Py.Finite z => mret z
  | Py.Inf => raise OverflowError
  end.

Definition convertSizeStringToInt (s : string) : M Z :=
  last ← match Py.last_char s with
         | Some c => mret c
         | None => raise IndexError
         end;
  let '(size, s) :=
    match SuffixToMultiplier last with
    | Some m => (m, Py.drop_last s)
    | None => (1, s)
    end in
  x ← float_ s;
  size ← int_of_float (Py.mul_int_float size x);
  (if size <=? 0
   then log Fatal ["config.size `"; Py.str size; "` should be positive"]
   else mret tt);;
  mret size.

(** [config].  [size] is [None] when [--size] is not on the command line,
    [Some None] for [--size] alone and [Some (Some v)] for [--size v]. *)
Definition config (size : option (option string)) : M unit :=
  let show (key : string) : M unit :=
    v ← getConfig key;
    print ("config." +:+ key +:+ "=" +:+ Py.repr v) in
  match size with
  | Some None => show "size"
  | Some (Some value) =>
      v ← convertSizeStringToInt value;
      update_config "size" v
  | None => show "size"
  end;;
  commit.

(** The [WHERE] clause of [restore]. *)
Definition restore_where (item : string) (version : option Z) (r : Item.row) : Prop :=
  Item.status r = Archived /\ Item.name r = item /\
  match version with
  | Some v => Item.version r = v
  | None => True
  end.

Global Instance restore_where_dec item version r :
  Decision (restore_where item version r).
Proof. unfold restore_where. destruct version; apply _. Defined.

Definition restore (root item : string) (version : option Z)
    (directory : option string) (returncode : Z) : M unit :=
  rows ← gets (fun w => filter (restore_where item version) (Db.items (conn w)));
  match rows with
  | [] =>
      let message := (["There is no archived item named `"; item; "`"] ++
        match version with
        | Some v => [" and version "; Py.str v]
        | None => []
        end)%list in
      log Fatal message
  | _ :: _ :: _ => log Fatal ["The item name `"; item; "` is ambiguous"]
  | _ => mret tt
  end;;
  row ← match rows with
        | row :: _ => mret row
        | [] => raise IndexError
        end;
  let directory :=
    match directory with
    | Some d => d
    | None => Py.dirname (Item.source row)
    end in
  let fullPath := Py.join root (Item.archive row) in
  let commands := ["tar"; "--checkpoint=.10000"; "-C"; directory; "-xzf"; fullPath] in
  log Info ["Running command "; Py.join_with " " commands];;
  returncode ← call commands returncode;
  print "";;
  let status := if returncode =? 0 then Restored else Corrupted in
  modify (set_conn (update_status_by_key status item (Item.version row)));;
  commit.

Definition printRow (row : Item.row) (index : Z) : M unit :=
  print ("#" +:+ Py.fmt_03d index +:+ "   " +:+
         Py.join_with " "
           [Item.name row; Py.str (Item.version row); Item.timestamp row;
            Status_str (Item.status row); Item.source row; Item.archive row]).

Definition listItems_step (item : re.pattern) (row : Item.row) (index : Z) : M Z :=
  if re.match_ item (Item.name row)
  then printRow row index;; mret (index + 1)
  else mret index.

Definition listItems (item : re.pattern) : M unit :=
  rows ← gets (fun w => order_by_timestamp (Db.items (conn w)));
  for_ rows (listItems_step item) 1;;
  mret tt.

(** The sub-commands with their arguments, and what the environment answers
    during the call (the clock, the exit status of [tar]). *)
Inductive command :=
  | Archive (source now : string) (tar : tar_result)
  | Restore (item : string) (version : option Z) (directory : option string)
      (returncode : Z)
  | ListItems (item : re.pattern)
  | Config (size : option (option string)).

Record Args := MkArgs {
  root : string;
  verbose : Level;
  cmd : command;
}.

Definition handler (root : string) (c : command) : M unit :=
  match c with
  | Archive source now tar => archive root source now tar
  | Restore item version directory returncode =>
      restore root item version directory returncode
  | ListItems item => listItems item
  | Config size => config size
  end.

(** [with sqlite3.connect(...) as conn: body]: commit when the body returns,
    roll back when it raises. *)
Definition with_conn (body : M unit) : M unit := fun w =>
  match body w with
  | (Ok _, w') => commit w'
  | (Raise e, w') => (Raise e, snd (rollback w'))
  end.

Definition main (args : Args) : M unit :=
  modify (set_verbosity (verbose args));;
  exclusiveLock (root args) LockFile;;
  connect DbFile;;
  with_conn (initializeDatabase;;
             handler (root args) (cmd args);;
             cleanup (root args)).

(** A sequence of invocations, one process after the other. *)
Definition run (l : list Args) (w : world) : world :=
  foldl (fun w args => snd (main args w)) w l.

(** A repository root that was just created. *)
Definition fresh : world := World Db.empty Db.empty ∅ Error [] [] [].

(** ** Specification vocabulary *)

Definition set_stderr (err : list string) (w : world) : world :=
  World (conn w) (disk w) (files w) (verbosity w) (stdout w) err (calls w).

(** The size [cleanup] reads for an archive, 0 standing for no entry. *)
Definition blob_size (fs : gmap string entry) (a : string) : Z :=
  match fs !! a with
  | Some e => Z.of_N (st_size e)
  | None => 0
  end.

Definition total_size (fs : gmap string entry) (l : list string) : Z :=
  foldr (fun a t => blob_size fs a + t) 0 l.

(** The archives the walk of [cleanup] evicts, given the running total. *)
Fixpoint evicted (limit : Z) (fs : gmap string entry) (l : list string) (t : Z)
    : list string :=
  match l with
  | [] => []
  | a :: l' =>
      if limit <? t then a :: evicted limit fs l' (t - blob_size fs a)
      else evicted limit fs l' t
  end.

(** The configured budget as [getConfig] reads it. *)
Definition config_limit (d : Db.t) : option Z :=
  Db.config d !! "size" ≫= Py.int_literal.

(** The archives of a pass, those it evicts and those it retains. *)
Definition pass_archives (w : world) : list string :=
  select_archived_archives (conn w).

Definition pass_evicted (limit : Z) (w : world) : list string :=
  evicted limit (files w) (pass_archives w)
    (total_size (files w) (pass_archives w)).

Definition pass_retained (limit : Z) (w : world) : list string :=
  filter (fun a => a ∉ pass_evicted limit w) (pass_archives w).

(** What the sweep leaves of an entry it does not exclude. *)
Definition swept (o : option entry) : option entry :=
  match o with
  | Some e =>
      match e_kind e, remove_error e with
      | Special, _ => Some e
      | _, Some _ => Some e
      | _, None => None
      end
  | None => None
  end.

Definition stat_sizes (fs : gmap string entry) (l : list string)
    (sizes : gmap string Z) : gmap string Z :=
  foldl (fun m a => <[a := blob_size fs a]> m) sizes l.

Definition mark_evicted (l : list string) (d : Db.t) : Db.t :=
  foldl (fun d a => update_status_by_name Deleted a d) d l.

Definition sweep_entry (file : string) (fs : gmap string entry) : gmap string entry :=
  match swept (fs !! file) with
  | Some _ => fs
  | None => delete file fs
  end.

Definition sweep_files (ex : gset string) (l : list string)
    (fs : gmap string entry) : gmap string entry :=
  foldl (fun fs f => if decide (f ∈ ex) then fs else sweep_entry f fs) fs l.

Definition pass_excluded (limit : Z) (w : world) : gset string :=
  list_to_set (pass_archives w) ∖ list_to_set (pass_evicted limit w)
  ∪ {[DbFile; LockFile]}.

(** ** Scenarios *)

Module Scenario.

Definition MB : N := 1048576.

(** A [tar] run that succeeds and leaves a blob of the given size. *)
Definition blob (size : N) : tar_result :=
  Tar 0 (Some (Entry RegularFile size None)).

Definition invoke (c : command) : Args := MkArgs "/repo" Error c.

Definition archive_A : Args :=
  invoke (Archive "/home/u/A" "2020-01-01 00:00:01" (blob (4 * MB))).
Definition archive_B : Args :=
  invoke (Archive "/home/u/B" "2020-01-01 00:00:02" (blob (4 * MB))).
Definition archive_C : Args :=
  invoke (Archive "/home/u/C" "2020-01-01 00:00:03" (blob (4 * MB))).

(** A budget of 10 MB, then three archives of 4 MB each. *)
Definition three_archives : list Args :=
  [invoke (Config (Some (Some "10M"))); archive_A; archive_B; archive_C].

(** The world in which the pass of invocation [a] starts, after the
    invocations [l] on a fresh root. *)
Definition before_pass (l : list Args) (a : Args) : world :=
  snd ((exclusiveLock (root a) LockFile;; connect DbFile;;
        initializeDatabase;; handler (root a) (cmd a)) (run l fresh)).



End Scenario.

(** The line [printRow] prints, and the rows [listItems] prints. *)
Definition row_line (row : Item.row) (index : Z) : string :=
  "#" +:+ Py.fmt_03d index +:+ "   " +:+
  Py.join_with " "
    [Item.name row; Py.str (Item.version row); Item.timestamp row;
     Status_str (Item.status row); Item.source row; Item.archive row].

Definition listed (item : re.pattern) (rows : list Item.row) : list Item.row :=
  filter (fun r => re.match_ item (Item.name r) = true) rows.

Definition set_stdout (out : list string) (w : world) : world :=
  World (conn w) (disk w) (files w) (verbosity w) out (stderr w) (calls w).

(** ** Versions and what an invocation leaves behind *)

Definition archive_name (base : string) (version : Z) : string :=
  base +:+ "-" +:+ Py.str version +:+ ".tar.gz".

(** The command line [archive] runs for a version. *)
Definition tar_create_command (root source : string) (version : Z) : list string :=
  ["tar"; "--checkpoint=.10000"; "-C"; Py.dirname source; "-czf";
   Py.join root (archive_name (Py.basename source) version); Py.basename source].

(** The three statements on table [versions] at the head of [archive]. *)
Definition issue (base : string) (d : Db.t) : Db.t :=
  increment_version base (insert_or_ignore_version base d).

(** The counter of a name, 0 when it has no row. *)
Definition counter (d : Db.t) (base : string) : Z :=
  default 0 (Db.versions d !! base).

(** What identifies a row and never changes once it is inserted. *)
Definition ident (r : Item.row) : string * Z * string :=
  (Item.name r, Item.version r, Item.archive r).

Definition idents (d : Db.t) : list (string * Z * string) :=
  ident <$> Db.items d.

(** The catalog invariant: keys are unique, counters are not negative, every
    version lies between 1 and the counter of its name, and every archive is
    named after its row. *)
Definition catalog_ok (d : Db.t) : Prop :=
  NoDup ((fun i => (i.1.1, i.1.2)) <$> idents d) /\
  (forall n c, Db.versions d !! n = Some c -> 0 <= c) /\
  forall n v a, (n, v, a) ∈ idents d ->
    1 <= v <= counter d n /\ a = archive_name n v.

Definition is_dir (fs : gmap string entry) (name : string) : Prop :=
  exists e, fs !! name = Some e /\ e_kind e = Directory.

(** The lock file and the catalog file can be opened. *)
Definition lock_ok (w : world) : Prop :=
  ~ is_dir (files w) LockFile /\ ~ is_dir (files w) DbFile.

(** The blob a command line creates for base name [B], if it is a
    [tar -czf] for [B]. *)
Definition created_blob (B : string) (command : list string) : option string :=
  match command with
  | [_; _; _; _; "-czf"; fullPath; base] =>
      if decide (base = B) then Some fullPath else None
  | _ => None
  end.

Definition created (B : string) (calls : list (list string)) : list string :=
  omap (created_blob B) calls.

(** Is the invocation an [archive] of base name [B]? *)
Definition archives (B : string) (a : Args) : bool :=
  match cmd a with
  | Archive source _ _ => bool_decide (Py.basename source = B)
  | _ => false
  end.

Definition ensure_file (name : string) (fs : gmap string entry) : gmap string entry :=
  match fs !! name with
  | Some _ => fs
  | None => <[name := Entry RegularFile 0 None]> fs
  end.

(** The catalog after [initializeDatabase]. *)
Definition init_db (d : Db.t) : Db.t :=
  Db.set_config (fun c =>
    match c !! "size" with
    | Some _ => c
    | None => <["size" := "10737418240"]> c
    end) d.

(** The world in which the handler of an invocation starts. *)
Definition started (args : Args) (err : list string) (w : world) : world :=
  World (init_db (disk w)) (init_db (disk w))
    (ensure_file DbFile (ensure_file LockFile (files w)))
    (verbose args) (stdout w) err (calls w).

(** How the [with] block ends. *)
Definition finish (o : result unit * world) : result unit * world :=
  match o with
  | (Ok _, w) => (Ok tt, set_disk (conn w) w)
  | (Raise e, w) => (Raise e, set_conn (fun _ => disk w) w)
  end.

Definition not_found_message (item : string) (version : option Z) : string :=
  "Fatal: There is no archived item named `" +:+ item +:+ "`" +:+
  match version with
  | Some v => " and version " +:+ Py.str v
  | None => ""
  end.

Definition ambiguous_message (item : string) : string :=
  "Fatal: The item name `" +:+ item +:+ "` is ambiguous".

(** Two catalogs with the same rows up to status and the same counters. *)
Definition same_catalog (d d' : Db.t) : Prop :=
  idents d' = idents d /\ Db.versions d' = Db.versions d.

(** The number of [archive] invocations for base name [B] in a sequence. *)
Definition archive_count (B : string) (l : list Args) : nat :=
  length (filter (fun a => archives B a = true) l).

Global Instance Item_row_eq_dec : EqDecision Item.row.
Proof. solve_decision. Defined.


(** * Proofs *)

(** ** The monad and the loops *)

Lemma bind_eq {A B} (m : M A) (f : A -> M B) w :
  (m ≫= f) w = match m w with (Ok a, w') => f a w' | (Raise e, w') => (Raise e, w') end.
Proof. reflexivity. Qed.

Lemma bind_ok {A B} (m : M A) (f : A -> M B) w a w' :
  m w = (Ok a, w') -> (m ≫= f) w = f a w'.
Proof. intros H. rewrite bind_eq, H. reflexivity. Qed.

Lemma bind_raise {A B} (m : M A) (f : A -> M B) w e w' :
  m w = (Raise e, w') -> (m ≫= f) w = (Raise e, w').
Proof. intros H. rewrite bind_eq, H. reflexivity. Qed.

Lemma set_stderr_id w : set_stderr (stderr w) w = w.
Proof. by destruct w. Qed.

Lemma log_nonfatal level args w :
  level <> Fatal -> exists err, log level args w = (Ok tt, set_stderr err w).
Proof.
  intros H. unfold log. rewrite bind_eq. cbn [gets].
  destruct (Level_index level <=? Level_index (verbosity w)).
  - eexists. destruct level; try congruence; reflexivity.
  - exists (stderr w). rewrite set_stderr_id. destruct level; try congruence; reflexivity.
Qed.

Lemma log_fatal args w :
  exists err, log Fatal args w = (Raise (SystemExit 1), set_stderr err w).
Proof.
  unfold log. rewrite bind_eq. cbn [gets].
  destruct (Level_index Fatal <=? Level_index (verbosity w)).
  - eexists. reflexivity.
  - exists (stderr w). rewrite set_stderr_id. reflexivity.
Qed.

Lemma getConfig_Converters_size : getConfig_Converters "size" = Some int_.
Proof. reflexivity. Qed.

Ltac munfold :=
  unfold mbind, M_bind, mret, M_ret, gets, modify, raise, commit, print in *.

Lemma getConfig_size w :
  match Db.config (conn w) !! "size" with
  | None => exists err, getConfig "size" w = (Raise (SystemExit 1), set_stderr err w)
  | Some text =>
      match Py.int_literal text with
      | Some z => getConfig "size" w = (Ok z, w)
      | None => getConfig "size" w = (Raise ValueError, w)
      end
  end.
Proof.
  unfold getConfig. rewrite getConfig_Converters_size.
  destruct (Db.config (conn w) !! "size") as [text|] eqn:E.
  - munfold. rewrite E. unfold int_. munfold. destruct (Py.int_literal text); reflexivity.
  - destruct (log_fatal ["Key `"; "size"; "` not found in config table"] w) as [err Herr].
    exists err. munfold. rewrite E, Herr. reflexivity.
Qed.

Ltac munfold_goal :=
  unfold mbind, M_bind, mret, M_ret, gets, modify, raise, commit, print.

Lemma for_cons {A S} (x : A) l (body : A -> S -> M S) acc w :
  for_ (x :: l) body acc w =
  match body x acc w with
  | (Ok acc', w') => for_ l body acc' w'
  | (Raise e, w') => (Raise e, w')
  end.
Proof. reflexivity. Qed.

Lemma for_nil {A S} (body : A -> S -> M S) acc w :
  for_ [] body acc w = (Ok acc, w).
Proof. reflexivity. Qed.

Lemma cleanup_stat_ok a sizes t w :
  is_Some (files w !! a) ->
  exists err, cleanup_stat a (sizes, t) w =
    (Ok (<[a := blob_size (files w) a]> sizes, t + blob_size (files w) a),
     set_stderr err w).
Proof.
  intros [e He]. unfold cleanup_stat, blob_size, os_stat_size. rewrite He.
  destruct (log_nonfatal Verbose
    ["Size of archive `"; a; "`: "; Py.str (Z.of_N (st_size e))] w)
    as [err H1]; [done|].
  exists err. munfold_goal. rewrite He, H1. reflexivity.
Qed.

Lemma cleanup_stat_missing a acc w :
  files w !! a = None -> cleanup_stat a acc w = (Raise OSError, w).
Proof.
  intros He. destruct acc. unfold cleanup_stat, os_stat_size. munfold_goal.
  by rewrite He.
Qed.

Lemma stat_loop_ok l : forall sizes t w,
  Forall (fun a => is_Some (files w !! a)) l ->
  exists err, for_ l cleanup_stat (sizes, t) w =
    (Ok (stat_sizes (files w) l sizes, t + total_size (files w) l), set_stderr err w).
Proof.
  induction l as [|a l IH]; intros sizes t w Hall.
  - exists (stderr w). rewrite set_stderr_id, for_nil.
    unfold total_size, stat_sizes. cbn. do 2 f_equal. f_equal. lia.
  - inversion Hall as [|? ? Ha Hl]; subst.
    destruct (cleanup_stat_ok a sizes t w Ha) as [err1 H1].
    destruct (IH (<[a := blob_size (files w) a]> sizes) (t + blob_size (files w) a)
                (set_stderr err1 w)) as [err2 H2]; [done|].
    exists err2. rewrite for_cons, H1, H2.
    unfold total_size, stat_sizes. cbn. do 2 f_equal. f_equal. lia.
Qed.

Lemma stat_loop_missing l : forall acc w,
  ~ Forall (fun a => is_Some (files w !! a)) l ->
  exists err, for_ l cleanup_stat acc w = (Raise OSError, set_stderr err w).
Proof.
  induction l as [|a l IH]; intros [sizes t] w Hall.
  - destruct Hall. constructor.
  - rewrite for_cons. destruct (files w !! a) as [e|] eqn:He.
    + destruct (cleanup_stat_ok a sizes t w) as [err1 H1]; [by rewrite He|].
      rewrite H1.
      destruct (IH (<[a := blob_size (files w) a]> sizes, t + blob_size (files w) a)
                  (set_stderr err1 w)) as [err2 H2].
      { intros HF. apply Hall. constructor; [by rewrite He|done]. }
      exists err2. by rewrite H2.
    + rewrite cleanup_stat_missing by done.
      exists (stderr w). by rewrite set_stderr_id.
Qed.

Lemma stat_sizes_lookup fs l : forall sizes a,
  a ∈ l -> stat_sizes fs l sizes !! a = Some (blob_size fs a).
Proof.
  induction l as [|b l IH] using rev_ind; intros sizes a Hin.
  - by apply elem_of_nil in Hin.
  - unfold stat_sizes. rewrite foldl_app. cbn.
    destruct (decide (a = b)) as [->|Hne].
    + by rewrite lookup_insert_eq.
    + rewrite lookup_insert_ne by done. apply IH. set_solver.
Qed.

Lemma cleanup_evict_over limit sizes a t ex w z :
  limit < t -> sizes !! a = Some z ->
  exists err, cleanup_evict limit sizes a (t, ex) w =
    (Ok (t - z, ex ∖ {[a]}),
     set_stderr err (set_conn (update_status_by_name Deleted a) w)).
Proof.
  intros Hlt Hs. unfold cleanup_evict.
  destruct (limit <? t) eqn:E; [|apply Z.ltb_ge in E; lia].
  destruct (log_nonfatal Info
    ["Decide to delete `"; a; "` because of total size limit"] w)
    as [err H1]; [done|].
  exists err. munfold_goal. rewrite H1. cbn. rewrite Hs. reflexivity.
Qed.

Lemma cleanup_evict_within limit sizes a t ex w :
  t <= limit -> cleanup_evict limit sizes a (t, ex) w = (Ok (t, ex), w).
Proof.
  intros Hle. unfold cleanup_evict.
  destruct (limit <? t) eqn:E; [apply Z.ltb_lt in E; lia|]. reflexivity.
Qed.

Lemma evict_loop limit sizes fs l : forall t ex w,
  (forall a, a ∈ l -> sizes !! a = Some (blob_size fs a)) ->
  exists err, for_ l (cleanup_evict limit sizes) (t, ex) w =
    (Ok (t - total_size fs (evicted limit fs l t),
         ex ∖ list_to_set (evicted limit fs l t)),
     set_stderr err (set_conn (mark_evicted (evicted limit fs l t)) w)).
Proof.
  induction l as [|a l IH]; intros t ex w Hs.
  - exists (stderr w). rewrite for_nil. unfold total_size, mark_evicted.
    cbn. destruct w as [[] ? ? ? ? ? ?]; cbn. do 2 f_equal.
    f_equal; [lia|set_solver].
  - rewrite for_cons. cbn [evicted].
    destruct (limit <? t) eqn:Hlt.
    + apply Z.ltb_lt in Hlt.
      destruct (cleanup_evict_over limit sizes a t ex w (blob_size fs a))
        as [err1 H1]; [done|apply Hs; set_solver|].
      rewrite H1.
      destruct (IH (t - blob_size fs a) (ex ∖ {[a]})
        (set_stderr err1 (set_conn (update_status_by_name Deleted a) w))) as [err2 H2].
      { intros b Hb. apply Hs. set_solver. }
      exists err2. rewrite H2. unfold total_size, mark_evicted. cbn.
      do 2 f_equal. f_equal; [lia|set_solver].
    + apply Z.ltb_ge in Hlt. rewrite cleanup_evict_within by done.
      destruct (IH t ex w) as [err2 H2].
      { intros b Hb. apply Hs. set_solver. }
      exists err2. by rewrite H2.
Qed.

Lemma sweep_files_cons ex f l fs :
  sweep_files ex (f :: l) fs =
  sweep_files ex l (if decide (f ∈ ex) then fs else sweep_entry f fs).
Proof. reflexivity. Qed.

Lemma swept_idemp o : swept (swept o) = swept o.
Proof. destruct o as [[[] ? []]|]; reflexivity. Qed.

Lemma sweep_entry_lookup file fs n :
  sweep_entry file fs !! n = if decide (n = file) then swept (fs !! n) else fs !! n.
Proof.
  unfold sweep_entry. destruct (decide (n = file)) as [->|Hne].
  - destruct (fs !! file) as [[[] ? []]|] eqn:E; cbn; rewrite ?E; cbn;
      rewrite ?lookup_delete_eq; try done.
  - destruct (swept (fs !! file)); [done|]. by rewrite lookup_delete_ne.
Qed.

Lemma sweep_files_lookup ex l : forall fs n,
  sweep_files ex l fs !! n =
  if decide (n ∈ l /\ n ∉ ex) then swept (fs !! n) else fs !! n.
Proof.
  induction l as [|f l IH]; intros fs n.
  - cbn. case_decide as H; [|done]. destruct H as [H _]. by apply elem_of_nil in H.
  - rewrite sweep_files_cons, IH.
    destruct (decide (f ∈ ex)) as [Hf|Hf].
    + repeat case_decide; try done; set_solver.
    + rewrite sweep_entry_lookup.
      repeat case_decide; subst; rewrite ?swept_idemp; try done; set_solver.
Qed.

Ltac wsimpl :=
  unfold set_stderr, set_files, set_conn, set_disk;
  cbn [conn disk files verbosity stdout stderr calls].

Lemma deleteFileOrDirectory_spec root file w :
  exists err, deleteFileOrDirectory root file w =
    (Ok tt, set_stderr err (set_files (sweep_entry file) w)).
Proof.
  unfold deleteFileOrDirectory, sweep_entry. munfold_goal.
  destruct (files w !! file) as [e|] eqn:E; cbn.
  - destruct e as [k sz re]; cbn.
    destruct k; cbn.
    + destruct (log_nonfatal Info ["Deleting file `"; file; "`"] w) as [err1 H1]; [done|].
      rewrite H1. destruct re as [msg|]; cbn.
      * destruct (log_nonfatal Error
          ["Failed to cleanup file `"; Py.join root file; "`: "; msg]
          (set_stderr err1 w)) as [err2 H2]; [done|].
        rewrite H2. exists err2. wsimpl. by rewrite E.
      * exists err1. wsimpl. by rewrite E.
    + destruct (log_nonfatal Info ["Deleting directory `"; file; "`"] w) as [err1 H1]; [done|].
      rewrite H1. destruct re as [msg|]; cbn.
      * destruct (log_nonfatal Error
          ["Failed to cleanup file `"; Py.join root file; "`: "; msg]
          (set_stderr err1 w)) as [err2 H2]; [done|].
        rewrite H2. exists err2. wsimpl. by rewrite E.
      * exists err1. wsimpl. by rewrite E.
    + exists (stderr w). wsimpl. rewrite E. by destruct w.
  - exists (stderr w). wsimpl. rewrite E. cbn.
    rewrite delete_id by done. by destruct w.
Qed.

Lemma sweep_loop root ex l : forall w,
  exists err, for_ l (cleanup_sweep root ex) tt w =
    (Ok tt, set_stderr err (set_files (sweep_files ex l) w)).
Proof.
  induction l as [|f l IH]; intros w.
  - exists (stderr w). rewrite for_nil. destruct w; reflexivity.
  - rewrite for_cons. unfold cleanup_sweep at 1.
    destruct (decide (f ∈ ex)) as [Hf|Hf].
    + destruct (IH w) as [err H]. exists err. munfold_goal. rewrite H.
      wsimpl. by rewrite sweep_files_cons, decide_True.
    + destruct (deleteFileOrDirectory_spec root f w) as [err1 H1]. rewrite H1.
      destruct (IH (set_stderr err1 (set_files (sweep_entry f) w))) as [err2 H2].
      exists err2. rewrite H2. wsimpl. by rewrite sweep_files_cons, decide_False.
Qed.

Lemma config_limit_getConfig w :
  match config_limit (conn w) with
  | Some limit => getConfig "size" w = (Ok limit, w)
  | None => exists e err, getConfig "size" w = (Raise e, set_stderr err w)
  end.
Proof.
  unfold config_limit. pose proof (getConfig_size w) as H.
  destruct (Db.config (conn w) !! "size") as [text|]; cbn.
  - destruct (Py.int_literal text); [done|].
    exists ValueError, (stderr w). by rewrite set_stderr_id.
  - destruct H as [err H]. eauto.
Qed.

Lemma cleanup_cases root w :
  match config_limit (conn w) with
  | None => exists e err, cleanup root w = (Raise e, set_stderr err w)
  | Some limit =>
      if decide (Forall (fun a => is_Some (files w !! a)) (pass_archives w))
      then exists err, cleanup root w =
        (Ok tt,
         set_stderr err
           (set_files (sweep_files (pass_excluded limit w) (map_to_list (files w)).*1)
              (set_disk (mark_evicted (pass_evicted limit w) (conn w))
                 (set_conn (mark_evicted (pass_evicted limit w)) w))))
      else exists err, cleanup root w = (Raise OSError, set_stderr err w)
  end.
Proof.
  pose proof (config_limit_getConfig w) as Hc.
  unfold cleanup. 
  destruct (config_limit (conn w)) as [limit|].
  - case_decide as Hall.
    + destruct (stat_loop_ok (pass_archives w) ∅ 0 w Hall) as [err1 H1].
      set (sizes := stat_sizes (files w) (pass_archives w) ∅) in *.
      set (total := 0 + total_size (files w) (pass_archives w)) in *.
      destruct (log_nonfatal Info ["Total size of existing archive: "; Py.str total]
                  (set_stderr err1 w)) as [err2 H2]; [done|].
      destruct (evict_loop limit sizes (files w) (pass_archives w) total
                  (list_to_set (pass_archives w)) (set_stderr err2 (set_stderr err1 w)))
        as [err3 H3].
      { intros a Ha. by apply stat_sizes_lookup. }
      match type of H3 with _ = (_, ?w3) => 
        destruct (sweep_loop root (list_to_set (pass_archives w) ∖
            list_to_set (evicted limit (files w) (pass_archives w) total) ∪ {[DbFile; LockFile]})
          (map_to_list (files w)).*1 (set_disk (conn w3) w3)) as [err4 H4] end.
      exists err4. munfold_goal. rewrite Hc.
      fold (pass_archives w). rewrite H1, H2, H3. unfold os_listdir. munfold_goal.
      cbn [files set_stderr set_conn set_disk] in *. rewrite H4.
      unfold pass_excluded, pass_evicted. 
      replace (total_size (files w) (pass_archives w)) with total by (unfold total; lia).
      reflexivity.
    + destruct (stat_loop_missing (pass_archives w) (∅, 0) w Hall) as [err H].
      exists err. munfold_goal. rewrite Hc. fold (pass_archives w). by rewrite H.
  - destruct Hc as (e & err & Hc). exists e, err. munfold_goal. by rewrite Hc.
Qed.

(** ** The pass of [cleanup] *)

Lemma insert_by_timestamp_perm r l : insert_by_timestamp r l ≡ₚ r :: l.
Proof.
  induction l as [|x l IH]; cbn; [done|].
  destruct (String.leb _ _); [done|]. rewrite IH. apply Permutation_swap.
Qed.

Lemma order_by_timestamp_perm l : order_by_timestamp l ≡ₚ l.
Proof.
  induction l as [|x l IH]; cbn; [done|].
  rewrite insert_by_timestamp_perm. by rewrite IH.
Qed.

Lemma elem_of_pass_archives w a :
  a ∈ pass_archives w <->
  exists r, r ∈ Db.items (conn w) /\ Item.status r = Archived /\ Item.archive r = a.
Proof.
  unfold pass_archives, select_archived_archives.
  rewrite list_elem_of_fmap. setoid_rewrite order_by_timestamp_perm.
  setoid_rewrite list_elem_of_filter. naive_solver.
Qed.



Lemma blob_size_nonneg fs a : 0 <= blob_size fs a.
Proof. unfold blob_size. destruct (fs !! a); lia. Qed.

Lemma total_size_nonneg fs l : 0 <= total_size fs l.
Proof.
  induction l as [|a l IH]; unfold total_size in *; cbn; [lia|].
  pose proof (blob_size_nonneg fs a). lia.
Qed.






Lemma elem_of_pass_excluded limit w n :
  n ∈ pass_excluded limit w <->
  n ∈ pass_retained limit w \/ n = DbFile \/ n = LockFile.
Proof.
  unfold pass_excluded, pass_retained. rewrite list_elem_of_filter. set_solver.
Qed.

Lemma listdir_elem_of (fs : gmap string entry) n :
  n ∈ (map_to_list fs).*1 <-> is_Some (fs !! n).
Proof.
  rewrite list_elem_of_fmap. split.
  - intros ([k e] & -> & H). apply elem_of_map_to_list in H. by exists e.
  - intros [e H]. exists (n, e). split; [done|]. by apply elem_of_map_to_list.
Qed.

Lemma sweep_listing_lookup ex (fs : gmap string entry) n :
  sweep_files ex (map_to_list fs).*1 fs !! n =
  if decide (n ∈ ex) then fs !! n else swept (fs !! n).
Proof.
  rewrite sweep_files_lookup. pose proof (listdir_elem_of fs n) as Hl.
  destruct (decide (n ∈ (map_to_list fs).*1 /\ n ∉ ex)) as [[H1 H2]|H];
    destruct (decide (n ∈ ex)) as [Hn|Hn]; try done.
  destruct (fs !! n) as [e|] eqn:E; [|done].
  destruct H. split; [|done]. apply Hl. by eexists.
Qed.

(** What a pass that completes has done. *)
Lemma cleanup_ok root w w' :
  cleanup root w = (Ok tt, w') ->
  exists limit,
    config_limit (conn w) = Some limit /\
    Forall (fun a => is_Some (files w !! a)) (pass_archives w) /\
    conn w' = mark_evicted (pass_evicted limit w) (conn w) /\
    disk w' = conn w' /\
    calls w' = calls w /\ stdout w' = stdout w /\ verbosity w' = verbosity w /\
    forall n, files w' !! n =
      if decide (n ∈ pass_excluded limit w) then files w !! n
      else swept (files w !! n).
Proof.
  intros H. pose proof (cleanup_cases root w) as Hc.
  destruct (config_limit (conn w)) as [limit|].
  - case_decide as Hall.
    + destruct Hc as [err Hc]. rewrite Hc in H. injection H as <-.
      exists limit. repeat split; try done.
      intros n. cbn. apply sweep_listing_lookup.
    + destruct Hc as [err Hc]. congruence.
  - destruct Hc as (e & err & Hc). congruence.
Qed.

(** A pass that raises has changed nothing but stderr. *)
Lemma cleanup_raise root w e w' :
  cleanup root w = (Raise e, w') -> exists err, w' = set_stderr err w.
Proof.
  intros H. pose proof (cleanup_cases root w) as Hc.
  destruct (config_limit (conn w)) as [limit|].
  - case_decide as Hall.
    + destruct Hc as [err Hc]. congruence.
    + destruct Hc as [err Hc]. exists err. congruence.
  - destruct Hc as (e' & err & Hc). exists err. congruence.
Qed.

(** ** The eviction statement and the catalog *)

(** The [UPDATE] of the walk compares the column [name] with the file name of
    the archive: a row whose name is no evicted file name keeps its status. *)
Lemma mark_evicted_items l d :
  Db.items (mark_evicted l d) =
  (fun r => if decide (Item.name r ∈ l) then Item.set_status Deleted r else r)
    <$> Db.items d.
Proof.
  revert d. induction l as [|a l IH]; intros d.
  - cbn. rewrite <- (list_fmap_id (Db.items d)) at 1. apply list_fmap_ext.
    intros i r _. rewrite decide_False; [done|]. apply not_elem_of_nil.
  - change (mark_evicted (a :: l) d) with
      (mark_evicted l (update_status_by_name Deleted a d)).
    rewrite IH. cbn. rewrite <- list_fmap_compose. apply list_fmap_ext.
    intros i r _. cbn. destruct r as [n v ts st src ar]; cbn.
    destruct (decide (n = a)) as [->|Hne]; cbn.
    + rewrite (decide_True (P := a ∈ a :: l)) by set_solver.
      by destruct (decide (a ∈ l)).
    + destruct (decide (n ∈ l)) as [Hin|Hin].
      * rewrite decide_True by set_solver. done.
      * rewrite decide_False by set_solver. done.
Qed.

(** C1 (the code at the scenario of the claim).  A budget of 10 MB and three
    archives A, B, C of 4 MB each: the third pass evicts the archive of A and
    removes its blob, yet the catalog still lists A, like B and C, with status
    Archived; the pass of the next invocation then fails on the missing blob. *)
Theorem C1_evicted_item_stays_Archived :
  let before := Scenario.before_pass
    [Scenario.invoke (Config (Some (Some "10M"))); Scenario.archive_A;
     Scenario.archive_B] Scenario.archive_C in
  let w := run Scenario.three_archives fresh in
  pass_evicted 10485760 before = ["A-1.tar.gz"] /\
  (fun r => (Item.name r, Item.status r)) <$> Db.items (disk w) =
    [("A", Archived); ("B", Archived); ("C", Archived)] /\
  files w !! "A-1.tar.gz" = None /\
  is_Some (files w !! "B-1.tar.gz") /\ is_Some (files w !! "C-1.tar.gz") /\
  fst (cleanup "/repo" w) = Raise OSError.
Proof. vm_compute. repeat split; eauto. Qed.

(** ** The budget *)






(** ** Which blobs the sweep keeps *)




(** ** A missing blob *)

(** C4 (amended).  When an item with status Archived has no blob under the
    root, reading its size raises [OSError] and the pass stops there: nothing
    is evicted, committed or swept; only stderr may have grown. *)
Theorem C4_missing_blob_raises root w limit r :
  config_limit (conn w) = Some limit ->
  r ∈ Db.items (conn w) ->
  Item.status r = Archived ->
  files w !! Item.archive r = None ->
  exists err, cleanup root w = (Raise OSError, set_stderr err w).
Proof.
  intros Hl Hr Hst Hnone. pose proof (cleanup_cases root w) as Hc.
  rewrite Hl in Hc. case_decide as Hall; [|done].
  rewrite Forall_forall in Hall.
  destruct (Hall (Item.archive r)) as [e He]; [|congruence].
  apply elem_of_pass_archives. eauto.
Qed.

Lemma C4_missing_blob_raises_witness :
  let w := run Scenario.three_archives fresh in
  exists err, cleanup "/repo" w = (Raise OSError, set_stderr err w).
Proof.
  intros w.
  apply (C4_missing_blob_raises "/repo" w 10485760
           (Item.Row "A" 1 "2020-01-01 00:00:01" Archived "/home/u/A" "A-1.tar.gz"));
    [vm_compute; reflexivity | vm_compute; set_solver | reflexivity
    | vm_compute; reflexivity].
Defined.

(** C4 (counterexample).  After the three archives of C1 the catalog lists A
    as Archived and its blob is gone: the next pass does not count it as zero
    and complete, it raises. *)
Lemma C4_pass_aborts_on_missing_blob :
  let w := run Scenario.three_archives fresh in
  (exists r, r ∈ Db.items (conn w) /\ Item.status r = Archived /\
             files w !! Item.archive r = None) /\
  cleanup "/repo" w = (Raise OSError, w) /\
  fst (main (Scenario.invoke (ListItems (re.Star re.Dot))) w) = Raise OSError.
Proof.
  cbv zeta. split; [|split; vm_compute; reflexivity].
  exists (Item.Row "A" 1 "2020-01-01 00:00:01" Archived "/home/u/A" "A-1.tar.gz").
  split; [vm_compute; set_solver|]. split; vm_compute; reflexivity.
Qed.

(** ** What is left under the root *)




(** ** Size strings *)
Lemma parse_digits_pretty_go x : forall s,
  Py.parse_digits (pretty_N_go x s) 0 = Py.parse_digits s x.
Proof.
  induction (N.lt_wf_0 x) as [x _ IH]; intros s.
  destruct (decide (x = 0)%N) as [->|Hx]; [by rewrite pretty_N_go_0|].
  rewrite pretty_N_go_step by lia.
  rewrite IH by (apply N.div_lt; lia).
  cbn [Py.parse_digits].
  assert (Py.digit_of_ascii (pretty_N_char (x `mod` 10)) = Some (x `mod` 10)%N) as ->.
  { pose proof (N.mod_lt x 10 ltac:(lia)) as Hlt.
    generalize dependent (x `mod` 10)%N. intros d Hd.
    destruct d as [|p]; [reflexivity|].
    do 4 (destruct p as [p|p|]; try reflexivity; try lia). }
  f_equal. pose proof (N.div_mod x 10 ltac:(lia)). lia.
Qed.


Lemma pretty_N_digits (x : N) :
  exists c s, pretty x = String c s /\ Py.parse_digits (String c s) 0 = Some x.
Proof.
  unfold pretty, pretty_N. case_decide as Hx; [subst; by exists "0"%char, ""|].
  pose proof (parse_digits_pretty_go x "") as H.
  change (Py.parse_digits "" x) with (Some x) in H.
  destruct (pretty_N_go x "") as [|c s] eqn:E.
  - cbn in H. injection H as <-. done.
  - by exists c, s.
Qed.






Lemma int_literal_nonempty d z : Py.int_literal d = Some z -> d <> "".
Proof. by intros H ->. Qed.



Lemma log_fatal_line args w :
  log Fatal args w =
  (Raise (SystemExit 1), add_stderr ("Fatal: " +:+ Py.join_with "" args) w).
Proof.
  unfold log. munfold_goal.
  assert ((Level_index Fatal <=? Level_index (verbosity w)) = true) as ->.
  { apply Z.leb_le. destruct (verbosity w); cbn; lia. }
  reflexivity.
Qed.










(** ** Patterns *)

Lemma append_nil_inv (s t : string) : s +:+ t = "" -> s = "" /\ t = "".
Proof. destruct s; [done|discriminate]. Qed.

Lemma re_nullable_lang p : re.nullable p = true <-> re.lang p "".
Proof.
  split.
  - induction p; cbn; intros H; try discriminate.
    + constructor.
    + apply andb_true_iff in H as [H1 H2].
      change "" with ("" +:+ ""). constructor; auto.
    + apply orb_true_iff in H as [H|H]; [apply re.lang_alt_l|apply re.lang_alt_r]; auto.
    + constructor.
  - intros H. remember "" as s eqn:Es. induction H; cbn; try done.
    + apply append_nil_inv in Es as [-> ->]. apply andb_true_iff; auto.
    + apply orb_true_iff; auto.
    + apply orb_true_iff; auto.
Qed.

Lemma re_deriv_sound c p : forall s, re.lang (re.deriv c p) s -> re.lang p (String c s).
Proof.
  induction p; cbn; intros s H.
  - inversion H.
  - inversion H.
  - destruct (Ascii.eqb_spec c c0) as [->|]; inversion H; subst. constructor.
  - destruct (Ascii.eqb_spec c re.newline) as [->|Hn]; inversion H; subst.
    by constructor.
  - destruct (re.nullable p1) eqn:En.
    + inversion H as [| | | | ? ? ? H1 | ? ? ? H1 | |]; subst.
      * inversion H1; subst.
        change (String c (s0 +:+ t)) with (String c s0 +:+ t). constructor; auto.
      * change (String c s) with ("" +:+ String c s). constructor; auto.
        by apply re_nullable_lang.
    + inversion H; subst.
      change (String c (s0 +:+ t)) with (String c s0 +:+ t). constructor; auto.
  - inversion H; subst; [apply re.lang_alt_l|apply re.lang_alt_r]; auto.
  - inversion H; subst.
    change (String c (s0 +:+ t)) with (String c s0 +:+ t). constructor; auto.
Qed.

Lemma re_deriv_complete c p t :
  re.lang p t -> forall s, t = String c s -> re.lang (re.deriv c p) s.
Proof.
  induction 1 as [| c0 | c0 Hn | p q s0 t0 Hp IHp Hq IHq | p q s0 Hp IHp
                 | p q s0 Hq IHq | p | p s0 t0 Hp IHp Hs IHs]; intros s Es; cbn.
  - discriminate.
  - injection Es as -> <-. rewrite Ascii.eqb_refl. constructor.
  - injection Es as -> <-.
    destruct (Ascii.eqb_spec c re.newline) as [->|]; [done|constructor].
  - destruct s0 as [|a s0].
    + change ("" +:+ t0) with t0 in Es. subst t0.
      apply re_nullable_lang in Hp. rewrite Hp. apply re.lang_alt_r. by apply IHq.
    + change (String a s0 +:+ t0) with (String a (s0 +:+ t0)) in Es.
      injection Es as -> <-.
      destruct (re.nullable p); [apply re.lang_alt_l|]; constructor; auto.
  - apply re.lang_alt_l. auto.
  - apply re.lang_alt_r. auto.
  - discriminate.
  - destruct s0 as [|a s0].
    + change ("" +:+ t0) with t0 in Es. by apply IHs.
    + change (String a s0 +:+ t0) with (String a (s0 +:+ t0)) in Es.
      injection Es as -> <-. constructor; auto.
Qed.

Lemma re_deriv_lang c p s : re.lang (re.deriv c p) s <-> re.lang p (String c s).
Proof.
  split; [apply re_deriv_sound|]. intros H. by apply (re_deriv_complete c p _ H).
Qed.

(** [match_] holds exactly when a prefix of the string is in the language of
    the pattern. *)
Lemma re_match_spec p s :
  re.match_ p s = true <-> exists s1 s2, s = s1 +:+ s2 /\ re.lang p s1.
Proof.
  revert p. induction s as [|c s IH]; intros p; cbn.
  - rewrite orb_false_r, re_nullable_lang. split.
    + intros H. by exists "", "".
    + intros (s1 & s2 & Hs & H). symmetry in Hs.
      apply append_nil_inv in Hs as [-> ->]. done.
  - rewrite orb_true_iff, IH, re_nullable_lang. split.
    + intros [H|(s1 & s2 & -> & H)].
      * by exists "", (String c s).
      * exists (String c s1), s2. split; [done|]. by apply re_deriv_lang.
    + intros (s1 & s2 & Hs & H). destruct s1 as [|a s1].
      * by left.
      * right. cbn in Hs. injection Hs as <- ->.
        exists s1, s2. split; [done|]. by apply re_deriv_lang.
Qed.

(** [search] holds exactly when some part of the string is in the language
    of the pattern. *)
Lemma re_search_spec p s :
  re.search p s = true <->
  exists s0 s1 s2, s = s0 +:+ s1 +:+ s2 /\ re.lang p s1.
Proof.
  induction s as [|c s IH]; cbn.
  - rewrite orb_false_r, orb_false_r, re_nullable_lang. split.
    + intros H. by exists "", "", "".
    + intros (s0 & s1 & s2 & Hs & H). symmetry in Hs.
      apply append_nil_inv in Hs as [-> Hs]. apply append_nil_inv in Hs as [-> ->].
      done.
  - rewrite orb_true_iff, IH.
    change (re.nullable p || re.match_ (re.deriv c p) s) with (re.match_ p (String c s)).
    rewrite re_match_spec. split.
    + intros [(s1 & s2 & Hs & H)|(s0 & s1 & s2 & -> & H)].
      * by exists "", s1, s2.
      * by exists (String c s0), s1, s2.
    + intros (s0 & s1 & s2 & Hs & H). destruct s0 as [|a s0].
      * left. by exists s1, s2.
      * right. cbn in Hs. injection Hs as <- ->. by exists s0, s1, s2.
Qed.

(** ** Listing *)

Lemma printRow_spec row index w :
  printRow row index w = (Ok tt, add_stdout (row_line row index) w).
Proof. reflexivity. Qed.

Lemma listItems_loop item rows : forall index w,
  exists n,
    for_ rows (listItems_step item) index w =
    (Ok n, set_stdout
             (stdout w ++ imap (fun k r => row_line r (index + Z.of_nat k))
                               (listed item rows))%list w).
Proof.
  induction rows as [|r rows IH]; intros index w.
  - exists index. rewrite for_nil. cbn. rewrite app_nil_r. by destruct w.
  - rewrite for_cons. unfold listItems_step at 1, listed.
    rewrite filter_cons. fold (listed item rows).
    destruct (re.match_ item (Item.name r)) eqn:Em.
    + rewrite decide_True by done. munfold_goal. rewrite printRow_spec.
      destruct (IH (index + 1) (add_stdout (row_line r index) w)) as [n Hn].
      exists n. rewrite Hn. cbn [imap]. unfold set_stdout, add_stdout. cbn.
      rewrite <- app_assoc. cbn. do 3 f_equal. f_equal.
      * f_equal. lia.
      * apply imap_ext. intros k x _. cbn. f_equal. lia.
    + rewrite decide_False by (by intros ?). destruct (IH index w) as [n Hn].
      exists n. munfold_goal. by rewrite Hn.
Qed.

Lemma listItems_spec item w :
  listItems item w =
  (Ok tt, set_stdout
            (stdout w ++ imap (fun k r => row_line r (1 + Z.of_nat k))
               (listed item (order_by_timestamp (Db.items (conn w)))))%list w).
Proof.
  unfold listItems. munfold_goal.
  destruct (listItems_loop item (order_by_timestamp (Db.items (conn w))) 1 w)
    as [n Hn].
  by rewrite Hn.
Qed.

(** C8 (amended).  [listItems] prints, in timestamp order and numbered from
    1, the rows whose name the pattern matches at its start: a row is printed
    exactly when some prefix of its name is in the language of the pattern
    ([re.match], not a search). *)
Theorem C8_list_matches_at_start item w :
  listItems item w =
    (Ok tt, set_stdout
       (stdout w ++ imap (fun k r => row_line r (1 + Z.of_nat k))
          (listed item (order_by_timestamp (Db.items (conn w)))))%list w) /\
  (forall r, r ∈ listed item (order_by_timestamp (Db.items (conn w))) <->
     r ∈ Db.items (conn w) /\
     exists s1 s2, Item.name r = s1 +:+ s2 /\ re.lang item s1).
Proof.
  split; [apply listItems_spec|].
  intros r. unfold listed. rewrite list_elem_of_filter, order_by_timestamp_perm.
  rewrite re_match_spec. tauto.
Qed.

(** C8 (counterexample).  With an item named foo in the catalog, the pattern
    [oo] occurs inside the name (a search finds it) but does not match at
    its start: [listItems] prints nothing. *)
Lemma C8_inner_occurrence_not_listed :
  let w := run [Scenario.invoke
                  (Archive "/home/u/foo" "2020-01-01 00:00:01" (Scenario.blob 1))]
               fresh in
  let oo := re.Cat (re.Chr "o") (re.Chr "o") in
  Item.name <$> Db.items (conn w) = ["foo"] /\
  re.lang oo "oo" /\ "foo" = "f" +:+ "oo" +:+ "" /\
  re.search oo "foo" = true /\
  re.match_ oo "foo" = false /\
  stdout (snd (listItems oo w)) = stdout w.
Proof.
  cbv zeta. split; [by vm_compute|]. split.
  { change "oo" with ("o" +:+ "o"). constructor; constructor. }
  by vm_compute.
Qed.

(** ** An invocation *)

Lemma is_dir_dec fs name : Decision (is_dir fs name).
Proof.
  unfold is_dir. destruct (fs !! name) as [e|].
  - destruct (e_kind e) eqn:Ek.
    + right. intros (e' & [= <-] & He). congruence.
    + left. eauto.
    + right. intros (e' & [= <-] & He). congruence.
  - right. intros (e' & [=] & _).
Defined.

Lemma os_open_creat_ok name w :
  ~ is_dir (files w) name ->
  os_open_creat name w = (Ok tt, set_files (ensure_file name) w).
Proof.
  intros H. unfold os_open_creat, ensure_file, set_files. cbn.
  destruct (files w !! name) as [e|] eqn:E; [|done].
  destruct (e_kind e) eqn:Ek; try (by destruct w).
  destruct H. by exists e.
Qed.

Lemma os_open_creat_dir name w :
  is_dir (files w) name -> os_open_creat name w = (Raise OSError, w).
Proof.
  intros (e & He & Hk). unfold os_open_creat. by rewrite He, Hk.
Qed.

Lemma connect_ok name w :
  ~ is_dir (files w) name ->
  connect name w =
  (Ok tt, set_conn (fun _ => disk w) (set_files (ensure_file name) w)).
Proof.
  intros H. unfold connect, ensure_file, set_files, set_conn. cbn.
  destruct (files w !! name) as [e|] eqn:E; [|done].
  destruct (e_kind e) eqn:Ek; try done.
  destruct H. by exists e.
Qed.

Lemma connect_dir name w :
  is_dir (files w) name -> connect name w = (Raise OperationalError, w).
Proof.
  intros (e & He & Hk). unfold connect. by rewrite He, Hk.
Qed.

Lemma initializeDatabase_spec w :
  initializeDatabase w =
  (Ok tt, set_disk (init_db (conn w)) (set_conn init_db w)).
Proof. reflexivity. Qed.

Lemma with_conn_eq body w : with_conn body w = finish (body w).
Proof.
  unfold with_conn, finish. destruct (body w) as [[[]|e] w']; reflexivity.
Qed.

(** An invocation that gets its lock and its connection runs the handler and
    the pass from the started world. *)
Lemma main_started args w :
  ~ is_dir (files w) LockFile ->
  ~ is_dir (ensure_file LockFile (files w)) DbFile ->
  exists err,
    main args w =
    finish ((handler (root args) (cmd args);; cleanup (root args))
              (started args err w)).
Proof.
  intros Hl Hd. unfold main, exclusiveLock.
  destruct (log_nonfatal Info
    ["Waiting for exclusive lock on file `"; Py.join (root args) LockFile; "`"]
    (set_verbosity (verbose args) w)) as [err Herr]; [done|].
  exists err. munfold_goal. cbn [set_verbosity]. rewrite Herr.
  rewrite os_open_creat_ok by done.
  rewrite connect_ok by done.
  rewrite with_conn_eq. munfold_goal. reflexivity.
Qed.

(** Otherwise it raises before it touches the catalog. *)
Lemma main_blocked args w :
  is_dir (files w) LockFile \/ is_dir (ensure_file LockFile (files w)) DbFile ->
  exists e err fs,
    main args w =
    (Raise e, World (conn w) (disk w) fs (verbose args) (stdout w) err (calls w)) /\
    (fs = files w \/ fs = ensure_file LockFile (files w)).
Proof.
  intros H. unfold main, exclusiveLock.
  destruct (log_nonfatal Info
    ["Waiting for exclusive lock on file `"; Py.join (root args) LockFile; "`"]
    (set_verbosity (verbose args) w)) as [err Herr]; [done|].
  destruct (is_dir_dec (files w) LockFile) as [Hl|Hl].
  - exists OSError, err, (files w). split; [|by left].
    munfold_goal. cbn [set_verbosity]. rewrite Herr.
    rewrite os_open_creat_dir by done. reflexivity.
  - destruct H as [H|H]; [done|].
    exists OperationalError, err, (ensure_file LockFile (files w)). split; [|by right].
    munfold_goal. cbn [set_verbosity]. rewrite Herr.
    rewrite os_open_creat_ok by done.
    rewrite connect_dir by done. reflexivity.
Qed.

(** ** [restore] *)

Lemma restore_not_found root item version directory returncode w :
  filter (restore_where item version) (Db.items (conn w)) = [] ->
  restore root item version directory returncode w =
  (Raise (SystemExit 1), add_stderr (not_found_message item version) w).
Proof.
  intros H. unfold restore. munfold_goal. rewrite H.
  rewrite log_fatal_line. unfold not_found_message.
  destruct version; reflexivity.
Qed.

Lemma restore_ambiguous root item version directory returncode w r1 r2 rest :
  filter (restore_where item version) (Db.items (conn w)) = r1 :: r2 :: rest ->
  restore root item version directory returncode w =
  (Raise (SystemExit 1), add_stderr (ambiguous_message item) w).
Proof.
  intros H. unfold restore. munfold_goal. rewrite H.
  rewrite log_fatal_line. reflexivity.
Qed.

Lemma restore_one root item version directory returncode w row :
  filter (restore_where item version) (Db.items (conn w)) = [row] ->
  exists err command,
    restore root item version directory returncode w =
    (Ok tt,
     let d := update_status_by_key
                (if returncode =? 0 then Restored else Corrupted)
                item (Item.version row) (conn w) in
     World d d (files w) (verbosity w) (stdout w ++ [""])%list err
       (calls w ++ [command])%list) /\
    length command = 6%nat.
Proof.
  intros H. unfold restore. munfold_goal. rewrite H.
  set (dir := match directory with Some d => d | None => Py.dirname (Item.source row) end).
  set (command := ["tar"; "--checkpoint=.10000"; "-C"; dir; "-xzf";
                   Py.join root (Item.archive row)]).
  destruct (log_nonfatal Info ["Running command "; Py.join_with " " command] w)
    as [err Herr]; [done|].
  exists err, command. split; [|done].
  rewrite Herr. unfold call. munfold_goal. reflexivity.
Qed.

Lemma elem_of_restore_rows item version (l : list Item.row) r :
  r ∈ filter (restore_where item version) l <->
  r ∈ l /\ Item.status r = Archived /\ Item.name r = item /\
  (forall v, version = Some v -> Item.version r = v).
Proof.
  rewrite list_elem_of_filter. unfold restore_where.
  destruct version as [v|]; split; intros H; destruct_and?; repeat split; auto.
  - by intros ? [= <-].
  - congruence.
Qed.

Lemma filter_nil_iff {A} (P : A -> Prop) `{!forall x, Decision (P x)} (l : list A) :
  filter P l = [] <-> forall x, x ∈ l -> ~ P x.
Proof.
  split.
  - intros Hf x Hx HP. eapply (filter_nil_not_elem_of P l x); eauto.
  - intros Hf. induction l as [|a l IH]; [done|].
    rewrite filter_cons, decide_False by (apply Hf; set_solver).
    apply IH. intros x Hx. apply Hf. set_solver.
Qed.

(** With unique keys, a row that is not Archived leaves nothing for a restore
    that names it by name and version. *)
Lemma restore_rows_other_status (l : list Item.row) r :
  NoDup ((fun r => (Item.name r, Item.version r)) <$> l) ->
  r ∈ l -> Item.status r <> Archived ->
  filter (restore_where (Item.name r) (Some (Item.version r))) l = [].
Proof.
  intros Hnd Hr Hst. apply filter_nil_iff. intros x Hx (Hs & Hn & Hv).
  assert (x = r) as ->; [|done].
  apply list_elem_of_lookup in Hx as [i Hi]. apply list_elem_of_lookup in Hr as [j Hj].
  assert (i = j) as ->.
  { eapply NoDup_lookup; [exact Hnd| |].
    - rewrite list_lookup_fmap, Hi. reflexivity.
    - rewrite list_lookup_fmap, Hj. cbn. by rewrite Hn, Hv. }
  congruence.
Qed.

Lemma restore_fatal_main args item version directory returncode w :
  cmd args = Restore item version directory returncode ->
  length (filter (restore_where item version) (Db.items (disk w))) <> 1%nat ->
  fst (main args w) <> Ok tt /\
  Db.items (disk (snd (main args w))) = Db.items (disk w) /\
  Db.versions (disk (snd (main args w))) = Db.versions (disk w) /\
  calls (snd (main args w)) = calls w.
Proof.
  intros Hc Hlen.
  destruct (is_dir_dec (files w) LockFile) as [Hl|Hl];
    [|destruct (is_dir_dec (ensure_file LockFile (files w)) DbFile) as [Hd|Hd]].
  - destruct (main_blocked args w) as (e & err & fs & -> & _); [by left|]. by cbn.
  - destruct (main_blocked args w) as (e & err & fs & -> & _); [by right|]. by cbn.
  - destruct (main_started args w Hl Hd) as [err ->]. rewrite Hc. cbn [handler].
    munfold_goal.
    destruct (filter (restore_where item version) (Db.items (disk w)))
      as [|r1 [|r2 rest]] eqn:E; [| done |].
    + rewrite restore_not_found by exact E. by cbn.
    + erewrite restore_ambiguous by exact E. by cbn.
Qed.

(** C5.  [restore] looks only at rows with status Archived and the given name
    (and version, when one is given).  No such row: a fatal error whose
    message names the item and the version asked for.  Several: a fatal
    error saying the name is ambiguous.  So a restore that names a Restored,
    Deleted or Corrupted item by name and version finds nothing; and in both
    fatal cases the catalog and the root are as before, also once the
    invocation has ended. *)
Theorem C5_restore_requires_one_archived root item version directory returncode w :
  let rows := filter (restore_where item version) (Db.items (conn w)) in
  (forall r, r ∈ rows <->
     r ∈ Db.items (conn w) /\ Item.status r = Archived /\ Item.name r = item /\
     (forall v, version = Some v -> Item.version r = v)) /\
  (rows = [] ->
     restore root item version directory returncode w =
     (Raise (SystemExit 1), add_stderr (not_found_message item version) w)) /\
  ((1 < length rows)%nat ->
     restore root item version directory returncode w =
     (Raise (SystemExit 1), add_stderr (ambiguous_message item) w)) /\
  (forall r,
     NoDup ((fun r => (Item.name r, Item.version r)) <$> Db.items (conn w)) ->
     r ∈ Db.items (conn w) -> Item.status r <> Archived ->
     restore root (Item.name r) (Some (Item.version r)) directory returncode w =
     (Raise (SystemExit 1),
      add_stderr (not_found_message (Item.name r) (Some (Item.version r))) w)) /\
  (forall args,
     cmd args = Restore item version directory returncode ->
     conn w = disk w -> length rows <> 1%nat ->
     fst (main args w) <> Ok tt /\
     Db.items (disk (snd (main args w))) = Db.items (disk w)).
Proof.
  cbv zeta. split; [intros r; apply elem_of_restore_rows|].
  split; [apply restore_not_found|]. split; [|split].
  - intros Hlen.
    destruct (filter (restore_where item version) (Db.items (conn w)))
      as [|r1 [|r2 rest]] eqn:E; cbn in Hlen; try lia.
    by eapply restore_ambiguous.
  - intros r Hnd Hr Hst. apply restore_not_found.
    by apply restore_rows_other_status.
  - intros args Hc Heq Hlen. rewrite Heq in Hlen.
    destruct (restore_fatal_main args item version directory returncode w Hc Hlen)
      as (H1 & H2 & _). done.
Qed.

(** An instance: A is archived and restored; restoring it once more, by name
    or by name and version, is refused as not found and nothing changes. *)
Lemma C5_restore_requires_one_archived_witness :
  let w := run [Scenario.archive_A;
                Scenario.invoke (Restore "A" None None 0)] fresh in
  restore "/repo" "A" (Some 1) None 0 w =
    (Raise (SystemExit 1),
     add_stderr "Fatal: There is no archived item named `A` and version 1" w) /\
  restore "/repo" "A" None None 0 w =
    (Raise (SystemExit 1),
     add_stderr "Fatal: There is no archived item named `A`" w) /\
  Db.items (disk (snd (main (Scenario.invoke (Restore "A" (Some 1) None 0)) w))) =
    Db.items (disk w).
Proof.
  cbv zeta.
  set (w := run [Scenario.archive_A; Scenario.invoke (Restore "A" None None 0)] fresh).
  split; [|split].
  - destruct (C5_restore_requires_one_archived "/repo" "A" (Some 1) None 0 w)
      as (_ & H & _). apply H. vm_compute. reflexivity.
  - destruct (C5_restore_requires_one_archived "/repo" "A" None None 0 w)
      as (_ & H & _). apply H. vm_compute. reflexivity.
  - destruct (C5_restore_requires_one_archived "/repo" "A" (Some 1) None 0 w)
      as (_ & _ & _ & _ & H).
    apply (H (Scenario.invoke (Restore "A" (Some 1) None 0)));
      [reflexivity | vm_compute; reflexivity | vm_compute; lia].
Defined.

(** ** What the handlers leave behind *)

Ltac log_step :=
  match goal with
  | |- context [log ?l ?a ?w] =>
      let err := fresh "err" in
      let Herr := fresh "Herr" in
      destruct (log_nonfatal l a w) as [err Herr]; [done|]; rewrite Herr
  end.

Lemma archive_effect root source now tar w r w' :
  archive root source now tar w = (r, w') ->
  let B := Py.basename source in
  let d1 := issue B (conn w) in
  match Db.versions d1 !! B with
  | None =>
      r = Raise TypeError /\ disk w' = disk w /\ files w' = files w /\
      calls w' = calls w
  | Some v =>
      let row := Item.Row B v now Archived source (archive_name B v) in
      calls w' = (calls w ++ [tar_create_command root source v])%list /\
      files w' = match tar_written tar with
                 | Some e => <[archive_name B v := e]> (files w)
                 | None => files w
                 end /\
      ((r = Ok tt /\ conn w' = disk w' /\
        disk w' = Db.set_items (fun l => (l ++ [row])%list) d1 /\
        tar_returncode tar = 0 /\ items_accept row (Db.items d1)) \/
       ((exists e, r = Raise e) /\ disk w' = d1 /\
        (tar_returncode tar <> 0 \/ ~ items_accept row (Db.items d1))))
  end.
Proof.
  intros H. cbv zeta. unfold archive in H. revert H. do 2 munfold_goal.
  cbn [conn set_conn set_disk].
  change (increment_version (Py.basename source)
            (insert_or_ignore_version (Py.basename source) (conn w)))
    with (issue (Py.basename source) (conn w)).
  destruct (Db.versions (issue (Py.basename source) (conn w)) !! Py.basename source)
    as [v|] eqn:Ev.
  - log_step. unfold check_call. munfold_goal.
    fold (archive_name (Py.basename source) v).
    fold (tar_create_command root source v).
    destruct (tar_returncode tar =? 0) eqn:Erc.
    + apply Z.eqb_eq in Erc. unfold insert_item.
      destruct (tar_written tar) as [e|]; cbn;
        (case_decide as Hacc; intros [= <- <-]; cbn;
         (split; [done|]); (split; [done|]);
         [left; split; [done|]; split; [done|]; split; [done|];
          split; [done|exact Hacc]
         |right; split; [eauto|]; split; [done|]; right; exact Hacc]).
    + apply Z.eqb_neq in Erc.
      destruct (tar_written tar) as [e|]; cbn; intros [= <- <-]; cbn;
        (split; [done|]); (split; [done|]); right;
        (split; [eauto|]); (split; [done|]); by left.
  - intros [= <- <-]. by cbn.
Qed.

Lemma same_catalog_refl d : same_catalog d d.
Proof. by split. Qed.

Lemma same_catalog_trans d1 d2 d3 :
  same_catalog d1 d2 -> same_catalog d2 d3 -> same_catalog d1 d3.
Proof. intros [H1 H2] [H3 H4]. split; congruence. Qed.

Lemma idents_update_status_by_key s n v d :
  same_catalog d (update_status_by_key s n v d).
Proof.
  split; [|done]. unfold idents, update_status_by_key. cbn.
  rewrite <- list_fmap_compose. apply list_fmap_ext. intros i r _. cbn.
  by case_decide.
Qed.

Lemma idents_update_status_by_name s n d :
  same_catalog d (update_status_by_name s n d).
Proof.
  split; [|done]. unfold idents, update_status_by_name. cbn.
  rewrite <- list_fmap_compose. apply list_fmap_ext. intros i r _. cbn.
  by case_decide.
Qed.

Lemma same_catalog_mark_evicted l d : same_catalog d (mark_evicted l d).
Proof.
  revert d. induction l as [|a l IH]; intros d; [apply same_catalog_refl|].
  eapply same_catalog_trans; [apply (idents_update_status_by_name Deleted a)|].
  apply IH.
Qed.

Lemma same_catalog_set_config f d : same_catalog d (Db.set_config f d).
Proof. by split. Qed.

Lemma restore_effect root item version directory returncode w r w' :
  conn w = disk w ->
  restore root item version directory returncode w = (r, w') ->
  same_catalog (disk w) (disk w') /\ files w' = files w /\
  (calls w' = calls w \/
   exists c, calls w' = (calls w ++ [c])%list /\ length c = 6%nat) /\
  (r = Ok tt -> conn w' = disk w').
Proof.
  intros Hcd H.
  destruct (filter (restore_where item version) (Db.items (conn w)))
    as [|r1 [|r2 rest]] eqn:E.
  - rewrite restore_not_found in H by done. injection H as <- <-. cbn.
    split; [apply same_catalog_refl|]. split; [done|]. split; [by left|done].
  - destruct (restore_one root item version directory returncode w r1 E)
      as (err & c & Hr & Hlen).
    rewrite Hr in H. injection H as <- <-. cbn.
    split; [rewrite <- Hcd; apply idents_update_status_by_key|].
    split; [done|]. split; [right; eauto|done].
  - erewrite restore_ambiguous in H by done. injection H as <- <-. cbn.
    split; [apply same_catalog_refl|]. split; [done|]. split; [by left|done].
Qed.

Lemma convertSizeStringToInt_frame s w :
  exists r err, convertSizeStringToInt s w = (r, set_stderr err w).
Proof.
  unfold convertSizeStringToInt. munfold_goal.
  destruct (Py.last_char s) as [c|]; [|exists (Raise IndexError), (stderr w); by rewrite set_stderr_id].
  destruct (SuffixToMultiplier c) as [m|].
  - unfold float_.
    destruct (Py.drop_last s) as [|a t];
      [exists (Raise ValueError), (stderr w); by rewrite set_stderr_id|].
    destruct (Py.int_literal (String a t)) as [z|];
      [|exists (Raise OutOfModel), (stderr w); by rewrite set_stderr_id].
    munfold_goal. destruct (Py.mul_int_float m (Py.to_float z)) as [x|]; cbn;
      [|exists (Raise OverflowError), (stderr w); by rewrite set_stderr_id].
    destruct (x <=? 0).
    + rewrite log_fatal_line. eexists _, _. reflexivity.
    + exists (Ok x), (stderr w). by rewrite set_stderr_id.
  - unfold float_.
    destruct s as [|a t];
      [exists (Raise ValueError), (stderr w); by rewrite set_stderr_id|].
    destruct (Py.int_literal (String a t)) as [z|];
      [|exists (Raise OutOfModel), (stderr w); by rewrite set_stderr_id].
    munfold_goal. destruct (Py.mul_int_float 1 (Py.to_float z)) as [x|]; cbn;
      [|exists (Raise OverflowError), (stderr w); by rewrite set_stderr_id].
    destruct (x <=? 0).
    + rewrite log_fatal_line. eexists _, _. reflexivity.
    + exists (Ok x), (stderr w). by rewrite set_stderr_id.
Qed.

Lemma getConfig_frame key w :
  exists r err, getConfig key w = (r, set_stderr err w).
Proof.
  unfold getConfig. munfold_goal.
  destruct (getConfig_Converters key) as [f|] eqn:Ek.
  - destruct (Db.config (conn w) !! key) as [text|].
    + unfold getConfig_Converters in Ek. case_decide; [|done].
      injection Ek as <-. unfold int_.
      destruct (Py.int_literal text); eexists _, (stderr w);
        by rewrite set_stderr_id.
    + rewrite log_fatal_line. eexists _, _. reflexivity.
  - rewrite log_fatal_line. eexists _, _. reflexivity.
Qed.

Lemma config_effect size w r w' :
  conn w = disk w ->
  config size w = (r, w') ->
  same_catalog (disk w) (disk w') /\ files w' = files w /\ calls w' = calls w /\
  (r = Ok tt -> conn w' = disk w').
Proof.
  intros Hcd. unfold config. do 2 munfold_goal.
  destruct size as [[s|]|].
  - destruct (convertSizeStringToInt_frame s w) as (r0 & err & ->).
    destruct r0 as [v|e]; [|intros [= <- <-]; cbn;
      (split; [apply same_catalog_refl|]); done].
    unfold update_config.
    destruct ((v <? - 2 ^ 63) || (2 ^ 63 - 1 <? v)); intros [= <- <-]; cbn;
      (split; [rewrite <- ?Hcd; try apply same_catalog_refl;
               apply same_catalog_set_config|]); done.
  - destruct (getConfig_frame "size" w) as (r0 & err & ->).
    destruct r0 as [a|e]; intros [= <- <-]; cbn;
      (split; [rewrite <- ?Hcd; apply same_catalog_refl|]); done.
  - destruct (getConfig_frame "size" w) as (r0 & err & ->).
    destruct r0 as [a|e]; intros [= <- <-]; cbn;
      (split; [rewrite <- ?Hcd; apply same_catalog_refl|]); done.
Qed.

Lemma listItems_effect item w r w' :
  conn w = disk w ->
  listItems item w = (r, w') ->
  same_catalog (disk w) (disk w') /\ files w' = files w /\ calls w' = calls w /\
  (r = Ok tt -> conn w' = disk w').
Proof.
  intros Hcd. rewrite listItems_spec. intros [= <- <-]. cbn.
  split; [apply same_catalog_refl|]. done.
Qed.

(** ** The end of an invocation *)

Lemma config_mark_evicted l d : Db.config (mark_evicted l d) = Db.config d.
Proof.
  revert d. induction l as [|a l IH]; intros d; [done|].
  change (mark_evicted (a :: l) d)
    with (mark_evicted l (update_status_by_name Deleted a d)).
  by rewrite IH.
Qed.

Lemma finish_pass root (r1 : result unit) w1 :
  (r1 = Ok tt -> conn w1 = disk w1) ->
  let o := finish (match r1 with
                   | Ok _ => cleanup root w1
                   | Raise e => (Raise e, w1)
                   end) in
  same_catalog (disk w1) (disk (snd o)) /\
  Db.config (disk (snd o)) = Db.config (disk w1) /\
  calls (snd o) = calls w1 /\ stdout (snd o) = stdout w1 /\
  conn (snd o) = disk (snd o) /\
  (forall n, n = LockFile \/ n = DbFile -> files (snd o) !! n = files w1 !! n) /\
  (fst o = Ok tt -> r1 = Ok tt).
Proof.
  intros Hcd. cbv zeta. destruct r1 as [[]|e].
  - specialize (Hcd eq_refl).
    destruct (cleanup root w1) as [[[]|e] w2] eqn:Ec.
    + apply cleanup_ok in Ec as (limit & _ & _ & Hconn & Hdisk & Hcalls & Hout & _ & Hf).
      cbn. rewrite Hconn, Hcd.
      split; [apply same_catalog_mark_evicted|].
      split; [apply config_mark_evicted|].
      split; [done|]. split; [done|]. split; [done|]. split; [|done].
      intros n Hn. rewrite Hf, decide_True; [done|].
      apply elem_of_pass_excluded. tauto.
    + apply cleanup_raise in Ec as [err ->]. cbn.
      split; [apply same_catalog_refl|]. done.
  - cbn. split; [apply same_catalog_refl|]. done.
Qed.

Lemma handler_then_cleanup root c w :
  (handler root c;; cleanup root) w =
  match fst (handler root c w) with
  | Ok _ => cleanup root (snd (handler root c w))
  | Raise e => (Raise e, snd (handler root c w))
  end.
Proof.
  rewrite bind_eq. by destruct (handler root c w) as [[[]|e] w1].
Qed.

Lemma last_char_app (a b : string) :
  b <> "" -> Py.last_char (a +:+ b) = Py.last_char b.
Proof.
  intros Hb. induction a as [|c a IH]; [done|].
  change (String c a +:+ b) with (String c (a +:+ b)).
  destruct (a +:+ b) as [|c' t] eqn:E; [by destruct a|]. exact IH.
Qed.

Lemma archive_name_last base version :
  Py.last_char (archive_name base version) = Some "z"%char.
Proof.
  unfold archive_name. rewrite last_char_app by (by destruct (Py.str version)).
  rewrite last_char_app by (by destruct (Py.str version)).
  by rewrite last_char_app.
Qed.

Lemma archive_name_not_meta base version :
  archive_name base version <> LockFile /\ archive_name base version <> DbFile.
Proof.
  pose proof (archive_name_last base version) as H.
  split; intros E; rewrite E in H; discriminate.
Qed.

Lemma ensure_file_lookup_ne name n fs :
  n <> name -> ensure_file name fs !! n = fs !! n.
Proof.
  intros Hne. unfold ensure_file. destruct (fs !! name); [done|].
  by rewrite lookup_insert_ne.
Qed.

Lemma ensure_file_not_dir name fs :
  ~ is_dir fs name -> ~ is_dir (ensure_file name fs) name.
Proof.
  intros H (e & He & Hk). unfold ensure_file in He.
  destruct (fs !! name) as [e'|] eqn:E.
  - apply H. exists e. by rewrite <- He.
  - rewrite lookup_insert_eq in He. injection He as <-. done.
Qed.

Lemma is_dir_ext fs fs' name :
  fs' !! name = fs !! name -> is_dir fs' name <-> is_dir fs name.
Proof. intros E. unfold is_dir. by rewrite E. Qed.

Lemma started_lock_ok args err w : lock_ok w -> lock_ok (started args err w).
Proof.
  intros [Hl Hd]. split; cbn.
  - rewrite is_dir_ext by (by apply ensure_file_lookup_ne).
    by apply ensure_file_not_dir.
  - apply ensure_file_not_dir.
    by rewrite is_dir_ext by (by apply ensure_file_lookup_ne).
Qed.

Lemma lock_ok_ext w w' :
  (forall n, n = LockFile \/ n = DbFile -> files w' !! n = files w !! n) ->
  lock_ok w -> lock_ok w'.
Proof.
  intros H [Hl Hd]. split.
  - rewrite is_dir_ext; [done|]. apply H. by left.
  - rewrite is_dir_ext; [done|]. apply H. by right.
Qed.

Lemma main_via_handler args w :
  lock_ok w ->
  exists err,
    let h := handler (root args) (cmd args) (started args err w) in
    main args w =
    finish (match fst h with
            | Ok _ => cleanup (root args) (snd h)
            | Raise e => (Raise e, snd h)
            end).
Proof.
  intros [Hl Hd].
  destruct (main_started args w) as [err H]; [done| |].
  - by rewrite is_dir_ext by (by apply ensure_file_lookup_ne).
  - exists err. cbv zeta. by rewrite H, handler_then_cleanup.
Qed.

Lemma idents_init_db d : same_catalog d (init_db d).
Proof. by split. Qed.

(** An invocation other than [archive] leaves rows (up to status) and
    counters alone and runs at most a [tar -xzf]. *)
Lemma main_quiet args w :
  lock_ok w ->
  (forall s n t, cmd args <> Archive s n t) ->
  let w' := snd (main args w) in
  lock_ok w' /\ conn w' = disk w' /\ same_catalog (disk w) (disk w') /\
  (calls w' = calls w \/
   exists c, calls w' = (calls w ++ [c])%list /\ length c = 6%nat).
Proof.
  intros Hlock Hcmd. cbv zeta.
  destruct (main_via_handler args w Hlock) as [err Hm]. cbv zeta in Hm.
  rewrite Hm. clear Hm.
  set (w0 := started args err w).
  assert (conn w0 = disk w0) as Hcd by done.
  destruct (handler (root args) (cmd args) w0) as [r1 w1] eqn:Eh.
  assert (same_catalog (disk w0) (disk w1) /\ files w1 = files w0 /\
          (calls w1 = calls w0 \/
           exists c, calls w1 = (calls w0 ++ [c])%list /\ length c = 6%nat) /\
          (r1 = Ok tt -> conn w1 = disk w1)) as (Hcat & Hfiles & Hcalls & Hok).
  { destruct (cmd args) as [s n t|item version directory rc|item|size] eqn:Ec;
      cbn [handler] in Eh.
    - by destruct (Hcmd s n t).
    - by apply (restore_effect _ _ _ _ _ _ _ _ Hcd Eh).
    - destruct (listItems_effect _ _ _ _ Hcd Eh) as (? & ? & ? & ?). auto.
    - destruct (config_effect _ _ _ _ Hcd Eh) as (? & ? & ? & ?). auto. }
  cbn [fst snd].
  destruct (finish_pass (root args) r1 w1 Hok)
    as (Hcat2 & _ & Hcalls2 & _ & Hcd2 & Hf2 & _).
  split; [|split; [done|split]].
  - apply (lock_ok_ext w0); [|by apply started_lock_ok].
    intros n Hn. rewrite Hf2 by done. by rewrite Hfiles.
  - eapply same_catalog_trans; [apply (idents_init_db (disk w))|].
    eapply same_catalog_trans; [exact Hcat|exact Hcat2].
  - rewrite Hcalls2. exact Hcalls.
Qed.

Lemma issue_versions_init_db B d :
  Db.versions (issue B (init_db d)) = Db.versions (issue B d).
Proof.
  unfold issue, insert_or_ignore_version, increment_version, init_db. cbn.
  case_decide; [done|]. by destruct (Db.versions d !! B).
Qed.

Lemma versions_set_items f d : Db.versions (Db.set_items f d) = Db.versions d.
Proof. reflexivity. Qed.

Lemma items_set_items f d : Db.items (Db.set_items f d) = f (Db.items d).
Proof. reflexivity. Qed.

Lemma items_init_db d : Db.items (init_db d) = Db.items d.
Proof. reflexivity. Qed.

Lemma issue_items B d : Db.items (issue B d) = Db.items d.
Proof.
  unfold issue, insert_or_ignore_version, increment_version. cbn.
  case_decide; [done|]. by destruct (Db.versions d !! B).
Qed.

Lemma issue_config B d : Db.config (issue B d) = Db.config d.
Proof.
  unfold issue, insert_or_ignore_version, increment_version. cbn.
  case_decide; [done|]. by destruct (Db.versions d !! B).
Qed.

(** An [archive] invocation: the counter of the base name moves by one, the
    [tar -czf] for the new version runs, and the row is inserted when [tar]
    succeeds and the constraints accept it. *)
Lemma main_archive args w source now tar :
  lock_ok w ->
  cmd args = Archive source now tar ->
  let w' := snd (main args w) in
  let B := Py.basename source in
  let d1 := issue B (disk w) in
  lock_ok w' /\ conn w' = disk w' /\
  match Db.versions d1 !! B with
  | None => same_catalog (disk w) (disk w') /\ calls w' = calls w
  | Some v =>
      let row := Item.Row B v now Archived source (archive_name B v) in
      Db.versions (disk w') = Db.versions d1 /\
      calls w' = (calls w ++ [tar_create_command (root args) source v])%list /\
      ((idents (disk w') = (idents (disk w) ++ [ident row])%list /\
        tar_returncode tar = 0 /\ items_accept row (Db.items (disk w))) \/
       (idents (disk w') = idents (disk w) /\
        (tar_returncode tar <> 0 \/ ~ items_accept row (Db.items (disk w)))))
  end.
Proof.
  intros Hlock Hcmd. cbv zeta.
  destruct (main_via_handler args w Hlock) as [err Hm]. cbv zeta in Hm.
  rewrite Hm. clear Hm.
  set (w0 := started args err w).
  destruct (handler (root args) (cmd args) w0) as [r1 w1] eqn:Eh.
  rewrite Hcmd in Eh. cbn [handler] in Eh.
  pose proof (archive_effect _ _ _ _ _ _ _ Eh) as He. cbv zeta in He.
  cbn [fst snd].
  change (conn w0) with (init_db (disk w)) in He.
  rewrite issue_versions_init_db, issue_items in He.
  change (Db.items (init_db (disk w))) with (Db.items (disk w)) in He.
  destruct (Db.versions (issue (Py.basename source) (disk w)) !! Py.basename source)
    as [v|] eqn:Ev.
  - destruct He as (Hcalls & Hfiles & Hor).
    assert (r1 = Ok tt -> conn w1 = disk w1) as Hok.
    { intros ->. destruct Hor as [(_ & H & _)|((e & [=]) & _)]. exact H. }
    destruct (finish_pass (root args) r1 w1 Hok)
      as ([Hid Hver] & _ & Hcalls2 & _ & Hcd2 & Hf2 & _).
    split; [|split; [done|split; [|split]]].
    + apply (lock_ok_ext w0); [|by apply started_lock_ok].
      intros n Hn. rewrite Hf2 by done. rewrite Hfiles.
      destruct (tar_written tar); [|done].
      destruct (archive_name_not_meta (Py.basename source) v).
      rewrite lookup_insert_ne; [done|]. by destruct Hn as [->| ->].
    + rewrite Hver.
      destruct Hor as [(_ & _ & -> & _)|(_ & -> & _)];
        rewrite ?versions_set_items; by rewrite issue_versions_init_db.
    + by rewrite Hcalls2, Hcalls.
    + rewrite Hid. destruct Hor as [(_ & _ & -> & Hrc & Hacc)|(_ & -> & Hno)].
      * left. split; [|done]. unfold idents.
        by rewrite items_set_items, issue_items, items_init_db, fmap_app.
      * right. split; [|done]. unfold idents.
        by rewrite issue_items, items_init_db.
  - destruct He as (-> & Hdisk & Hfiles & Hcalls).
    destruct (finish_pass (root args) (Raise TypeError) w1 ltac:(done))
      as (Hcat2 & _ & Hcalls2 & _ & Hcd2 & Hf2 & _).
    split; [|split; [done|split]].
    + apply (lock_ok_ext w0); [|by apply started_lock_ok].
      intros n Hn. rewrite Hf2 by done. by rewrite Hfiles.
    + eapply same_catalog_trans; [apply (idents_init_db (disk w))|].
      rewrite Hdisk in Hcat2. exact Hcat2.
    + by rewrite Hcalls2, Hcalls.
Qed.

(** ** Archive names *)

Lemma length_append (a b : string) :
  String.length (a +:+ b) = (String.length a + String.length b)%nat.
Proof.
  induction a as [|c a IH]; [done|].
  change (String c a +:+ b) with (String c (a +:+ b)).
  cbn [String.length]. by rewrite IH.
Qed.

Lemma append_assoc (a b c : string) : (a +:+ b) +:+ c = a +:+ (b +:+ c).
Proof.
  induction a as [|x a IH]; [done|].
  change (String x a +:+ b) with (String x (a +:+ b)).
  change (String x (a +:+ b) +:+ c) with (String x ((a +:+ b) +:+ c)).
  by rewrite IH.
Qed.

Lemma append_cancel_r (a1 a2 t : string) : a1 +:+ t = a2 +:+ t -> a1 = a2.
Proof.
  revert a2. induction a1 as [|c a1 IH]; intros [|c2 a2] H; [done| | |].
  - apply (f_equal String.length) in H.
    change ("" +:+ t) with t in H. rewrite length_append in H. cbn in H. lia.
  - apply (f_equal String.length) in H.
    change ("" +:+ t) with t in H. rewrite length_append in H. cbn in H. lia.
  - cbn in H. injection H as -> H. f_equal. by apply IH.
Qed.

Lemma parse_digits_dash x y : forall acc,
  Py.parse_digits (x +:+ String "-" y) acc = None.
Proof.
  induction x as [|c x IH]; intros acc; [done|].
  change (String c x +:+ String "-" y) with (String c (x +:+ String "-" y)).
  cbn [Py.parse_digits]. destruct (Py.digit_of_ascii c); [apply IH|done].
Qed.

Lemma parse_digits_str v :
  0 <= v -> Py.parse_digits (Py.str v) 0 = Some (Z.to_N v).
Proof.
  intros Hv. unfold Py.str, pretty, pretty_Z. destruct v as [|p|p]; [done| |lia].
  destruct (pretty_N_digits (Npos p)) as (c & s & E & H).
  unfold pretty, pretty_positive. by rewrite E, H.
Qed.

Lemma str_no_dash v x y : 0 <= v -> Py.str v <> x +:+ String "-" y.
Proof.
  intros Hv E. pose proof (parse_digits_str v Hv) as H.
  rewrite E, parse_digits_dash in H. done.
Qed.

Lemma dash_split_inj n1 n2 d1 d2 :
  (forall x y, d1 <> x +:+ String "-" y) ->
  (forall x y, d2 <> x +:+ String "-" y) ->
  n1 +:+ String "-" d1 = n2 +:+ String "-" d2 -> n1 = n2 /\ d1 = d2.
Proof.
  intros H1 H2. revert n2. induction n1 as [|c n1 IH]; intros [|c2 n2] H.
  - cbn in H. by injection H as ->.
  - cbn in H. injection H as <- H. by destruct (H1 n2 d2).
  - cbn in H. injection H as -> H. by destruct (H2 n1 d1).
  - cbn in H. injection H as -> H. destruct (IH n2 H) as [-> ->]. done.
Qed.

(** Distinct rows get distinct archive names. *)
Lemma archive_name_inj n1 v1 n2 v2 :
  0 <= v1 -> 0 <= v2 ->
  archive_name n1 v1 = archive_name n2 v2 -> n1 = n2 /\ v1 = v2.
Proof.
  intros H1 H2 H. unfold archive_name in H.
  change (n1 +:+ "-" +:+ Py.str v1 +:+ ".tar.gz")
    with (n1 +:+ String "-" (Py.str v1 +:+ ".tar.gz")) in H.
  change (n2 +:+ "-" +:+ Py.str v2 +:+ ".tar.gz")
    with (n2 +:+ String "-" (Py.str v2 +:+ ".tar.gz")) in H.
  assert (forall n v, n +:+ String "-" (Py.str v +:+ ".tar.gz") =
                      (n +:+ String "-" (Py.str v)) +:+ ".tar.gz") as Hassoc.
  { intros n v. by rewrite append_assoc. }
  rewrite !Hassoc in H. apply append_cancel_r in H.
  apply dash_split_inj in H as [-> Hs]; [|by intros; apply str_no_dash..].
  split; [done|]. by apply (inj pretty).
Qed.

Lemma archive_name_nonempty n v : archive_name n v <> "".
Proof.
  intros E. pose proof (archive_name_last n v) as H. by rewrite E in H.
Qed.

(** ** The catalog invariant *)

Lemma issue_lookup_same B d :
  B <> "" -> Db.versions (issue B d) !! B = Some (counter d B + 1).
Proof.
  intros HB. unfold issue, insert_or_ignore_version, increment_version, counter.
  rewrite decide_False by done.
  destruct (Db.versions d !! B) as [c|] eqn:E; cbn.
  - by rewrite lookup_alter_eq, E.
  - by rewrite lookup_alter_eq, lookup_insert_eq.
Qed.

Lemma issue_lookup_present B d c :
  Db.versions d !! B = Some c -> Db.versions (issue B d) !! B = Some (c + 1).
Proof.
  intros E. unfold issue, insert_or_ignore_version, increment_version.
  case_decide; cbn; rewrite ?E; cbn; by rewrite lookup_alter_eq, E.
Qed.

Lemma issue_lookup_absent B d :
  Db.versions (issue B d) !! B = None -> B = "" /\ Db.versions d !! B = None.
Proof.
  intros H. destruct (decide (B = "")) as [->|HB].
  - split; [done|]. destruct (Db.versions d !! "") as [c|] eqn:E; [|done].
    by rewrite (issue_lookup_present "" d c E) in H.
  - by rewrite issue_lookup_same in H.
Qed.

Lemma issue_lookup_ne B n d :
  n <> B -> Db.versions (issue B d) !! n = Db.versions d !! n.
Proof.
  intros Hne. unfold issue, insert_or_ignore_version, increment_version.
  case_decide; [cbn; by rewrite lookup_alter_ne|].
  destruct (Db.versions d !! B); cbn; rewrite lookup_alter_ne by done; [done|].
  by rewrite lookup_insert_ne.
Qed.

Lemma issue_lookup_value B d v :
  (forall n c, Db.versions d !! n = Some c -> 0 <= c) ->
  Db.versions (issue B d) !! B = Some v -> v = counter d B + 1 /\ 1 <= v.
Proof.
  intros Hnn H. unfold counter.
  destruct (Db.versions d !! B) as [c|] eqn:E.
  - rewrite (issue_lookup_present B d c E) in H. injection H as <-.
    specialize (Hnn B c E). cbn. lia.
  - destruct (decide (B = "")) as [->|HB].
    + unfold issue, insert_or_ignore_version, increment_version in H.
      rewrite decide_True in H by done. cbn in H.
      by rewrite lookup_alter_eq, E in H.
    + rewrite issue_lookup_same in H by done. unfold counter in H.
      rewrite E in H. injection H as <-. cbn. lia.
Qed.

Lemma catalog_ok_same d d' : same_catalog d d' -> catalog_ok d -> catalog_ok d'.
Proof.
  intros [Hi Hv] (Hnd & Hnn & Hr). unfold catalog_ok, counter.
  rewrite Hi, Hv. done.
Qed.

Lemma catalog_ok_issue B d d' :
  Db.versions d' = Db.versions (issue B d) -> idents d' = idents d ->
  catalog_ok d -> catalog_ok d'.
Proof.
  intros Hv Hi (Hnd & Hnn & Hr). unfold catalog_ok, counter. rewrite Hi, Hv.
  split; [done|]. split.
  - intros n c. destruct (decide (n = B)) as [->|Hne].
    + intros H. apply (issue_lookup_value B d c Hnn) in H. lia.
    + rewrite issue_lookup_ne by done. apply Hnn.
  - intros n v a Hin. destruct (Hr n v a Hin) as [Hrange ->]. split; [|done].
    unfold counter in Hrange. destruct (decide (n = B)) as [->|Hne].
    + destruct (Db.versions (issue B d) !! B) as [c|] eqn:E.
      * apply (issue_lookup_value B d c Hnn) in E as [-> _]. unfold counter.
        cbn. lia.
      * apply issue_lookup_absent in E as [_ E]. rewrite E in Hrange. cbn in *. lia.
    + by rewrite issue_lookup_ne.
Qed.

Lemma elem_of_idents d n v a :
  (n, v, a) ∈ idents d <->
  exists r, r ∈ Db.items d /\ Item.name r = n /\ Item.version r = v /\
            Item.archive r = a.
Proof.
  unfold idents, ident. rewrite list_elem_of_fmap. split.
  - intros (r & Heq & Hr). injection Heq as -> -> ->. eauto.
  - intros (r & Hr & <- & <- & <-). eauto.
Qed.

(** In a catalog that satisfies the invariant, the row of a new version is
    accepted by the constraints of table [items]. *)
Lemma items_accept_new d B v now source :
  catalog_ok d -> B <> "" -> source <> "" ->
  Db.versions (issue B d) !! B = Some v ->
  items_accept (Item.Row B v now Archived source (archive_name B v)) (Db.items d).
Proof.
  intros (Hnd & Hnn & Hr) HB Hs Hv.
  apply (issue_lookup_value B d v Hnn) in Hv as [-> Hv1].
  unfold items_accept. cbn. split; [done|]. split; [lia|]. split; [done|].
  split; [apply archive_name_nonempty|].
  apply Forall_forall. intros x Hx.
  destruct (Hr (Item.name x) (Item.version x) (Item.archive x)) as [Hrange Ha].
  { apply elem_of_idents. eauto. }
  split.
  - intros [Hn Hver]. rewrite Hn in Hrange. lia.
  - rewrite Ha. intros E. apply archive_name_inj in E as [Hn Hver]; [|lia..].
    rewrite Hn in Hrange. lia.
Qed.

Lemma catalog_ok_insert B v d d' :
  Db.versions d' = Db.versions (issue B d) ->
  idents d' = (idents d ++ [(B, v, archive_name B v)])%list ->
  Db.versions (issue B d) !! B = Some v ->
  catalog_ok d -> catalog_ok d'.
Proof.
  intros Hv Hi Hlook Hok.
  assert (catalog_ok (issue B d)) as (Hnd & Hnn & Hr).
  { apply (catalog_ok_issue B d);
      [done | unfold idents; by rewrite issue_items | done]. }
  destruct Hok as (_ & Hnn0 & Hr0).
  destruct (issue_lookup_value B d v Hnn0 Hlook) as [Hveq Hv1].
  assert (idents (issue B d) = idents d) as Hid.
  { unfold idents. by rewrite issue_items. }
  rewrite Hid in Hnd, Hr.
  unfold catalog_ok. rewrite Hi.
  split; [|split].
  - rewrite fmap_app. apply NoDup_app. split; [done|].
    split; [|apply NoDup_singleton].
    intros k Hk Hk2. cbn in Hk2. apply list_elem_of_singleton in Hk2 as ->.
    apply list_elem_of_fmap in Hk as ([[n v'] a] & Heq & Hin).
    cbn in Heq. injection Heq as <- <-.
    destruct (Hr0 _ _ _ Hin) as [Hrange _]. lia.
  - intros n c. rewrite Hv. apply Hnn.
  - intros n v' a Hin. unfold counter. rewrite Hv.
    apply elem_of_app in Hin as [Hin|Hin].
    + by apply Hr.
    + apply list_elem_of_singleton in Hin. injection Hin as -> -> ->.
      rewrite Hlook. cbn. split; [lia|done].
Qed.

(** ** Invariants of an invocation and of a run *)

Lemma not_archive_cases c :
  (exists s n t, c = Archive s n t) \/ (forall s n t, c <> Archive s n t).
Proof. destruct c; [left; eauto|right; done..]. Qed.

Lemma main_invariants args w :
  lock_ok w -> catalog_ok (disk w) ->
  lock_ok (snd (main args w)) /\ catalog_ok (disk (snd (main args w))) /\
  conn (snd (main args w)) = disk (snd (main args w)).
Proof.
  intros Hl Hc. destruct (not_archive_cases (cmd args)) as [(s & n & t & Ec)|Hn].
  - pose proof (main_archive args w s n t Hl Ec) as H. cbv zeta in H.
    destruct H as (Hl' & Hcd & H). split; [done|]. split; [|done].
    destruct (Db.versions (issue (Py.basename s) (disk w)) !! Py.basename s)
      as [v|] eqn:Ev.
    + destruct H as (Hv & _ & [(Hi & _ & _)|(Hi & _)]).
      * by apply (catalog_ok_insert (Py.basename s) v (disk w)).
      * by apply (catalog_ok_issue (Py.basename s) (disk w)).
    + destruct H as [Hs _]. by apply (catalog_ok_same (disk w)).
  - pose proof (main_quiet args w Hl Hn) as H. cbv zeta in H.
    destruct H as (Hl' & Hcd & Hs & _). split; [done|]. split; [|done].
    by apply (catalog_ok_same (disk w)).
Qed.

Lemma run_cons a l w : run (a :: l) w = run l (snd (main a w)).
Proof. reflexivity. Qed.

Lemma run_invariants l : forall w,
  lock_ok w -> catalog_ok (disk w) ->
  lock_ok (run l w) /\ catalog_ok (disk (run l w)).
Proof.
  induction l as [|a l IH]; intros w Hl Hc; [done|].
  rewrite run_cons. destruct (main_invariants a w Hl Hc) as (Hl' & Hc' & _).
  by apply IH.
Qed.

Lemma fresh_ok : lock_ok fresh /\ catalog_ok (disk fresh).
Proof.
  split.
  - split; intros (e & He & _); by vm_compute in He.
  - split; [constructor|]. split.
    + intros n c H. change (Db.versions (disk fresh)) with (∅ : gmap string Z) in H.
      by rewrite lookup_empty in H.
    + intros n v a H. by apply elem_of_nil in H.
Qed.

(** ** Versions along a run *)

Lemma created_app B (l1 l2 : list (list string)) :
  created B (l1 ++ l2) = (created B l1 ++ created B l2)%list.
Proof. unfold created. apply omap_app. Qed.

Lemma created_snoc B (l : list (list string)) c :
  created B (l ++ [c]) =
  (created B l ++ match created_blob B c with Some p => [p] | None => [] end)%list.
Proof.
  rewrite created_app. f_equal.
Qed.

Lemma created_blob_create B root source v :
  created_blob B (tar_create_command root source v) =
  if decide (Py.basename source = B)
  then Some (Py.join root (archive_name (Py.basename source) v)) else None.
Proof. reflexivity. Qed.

Lemma created_blob_six B c : length c = 6%nat -> created_blob B c = None.
Proof.
  intros H. do 7 (destruct c as [|? c]; try done).
  unfold created_blob. by repeat case_match.
Qed.

Lemma counter_same d d' B : same_catalog d d' -> counter d' B = counter d B.
Proof. intros [_ H]. unfold counter. by rewrite H. Qed.

Lemma main_versions B args w :
  B <> "" -> lock_ok w -> catalog_ok (disk w) ->
  let w' := snd (main args w) in
  counter (disk w') B =
    counter (disk w) B + (if archives B args then 1 else 0) /\
  created B (calls w') =
    (created B (calls w) ++
     if archives B args
     then [Py.join (root args) (archive_name B (counter (disk w) B + 1))]
     else [])%list.
Proof.
  intros HB Hl Hc. cbv zeta. unfold archives.
  destruct (not_archive_cases (cmd args)) as [(s & n & t & Ec)|Hn].
  - rewrite Ec. pose proof (main_archive args w s n t Hl Ec) as H. cbv zeta in H.
    destruct H as (_ & _ & H). destruct Hc as (_ & Hnn & _).
    destruct (Db.versions (issue (Py.basename s) (disk w)) !! Py.basename s)
      as [v|] eqn:Ev.
    + destruct H as (Hv & Hcalls & _).
      rewrite Hcalls, created_snoc, created_blob_create. unfold counter at 1. rewrite Hv.
      case_bool_decide as Hb.
      * subst B. rewrite decide_True by done. rewrite Ev.
        apply (issue_lookup_value _ _ _ Hnn) in Ev as [-> _]. cbn. done.
      * rewrite decide_False by done. rewrite issue_lookup_ne by done.
        cbn. rewrite app_nil_r. split; [unfold counter; lia|done].
    + destruct H as [Hs Hcalls]. apply issue_lookup_absent in Ev as [E0 _].
      rewrite bool_decide_false by congruence.
      rewrite (counter_same _ _ _ Hs), Hcalls, app_nil_r. split; [lia|done].
  - pose proof (main_quiet args w Hl Hn) as H. cbv zeta in H.
    destruct H as (_ & _ & Hs & Hcalls).
    assert ((if match cmd args with
                | Archive source _ _ => bool_decide (Py.basename source = B)
                | _ => false
                end then 1 else 0) = 0 /\
            match cmd args with
            | Archive source _ _ => bool_decide (Py.basename source = B)
            | _ => false
            end = false) as [-> ->].
    { destruct (cmd args) as [s n t| | |]; [by destruct (Hn s n t)|done..]. }
    rewrite (counter_same _ _ _ Hs), app_nil_r. split; [lia|].
    destruct Hcalls as [->|(c & -> & Hlen)]; [done|].
    rewrite created_snoc, created_blob_six by done. by rewrite app_nil_r.
Qed.

Lemma archive_count_cons B a l :
  archive_count B (a :: l) =
  ((if archives B a then 1 else 0) + archive_count B l)%nat.
Proof.
  unfold archive_count. rewrite filter_cons.
  destruct (archives B a); [by rewrite decide_True|by rewrite decide_False].
Qed.

Lemma run_versions r B l : forall w,
  B <> "" -> lock_ok w -> catalog_ok (disk w) ->
  Forall (fun a => root a = r) l ->
  counter (disk (run l w)) B = counter (disk w) B + Z.of_nat (archive_count B l) /\
  created B (calls (run l w)) =
    (created B (calls w) ++
     ((fun v => Py.join r (archive_name B v)) <$>
        seqZ (counter (disk w) B + 1) (Z.of_nat (archive_count B l))))%list.
Proof.
  induction l as [|a l IH]; intros w HB Hl Hc Hr.
  - cbn. rewrite app_nil_r. split; [lia|done].
  - inversion Hr as [|? ? Ha Hr']; subst. rewrite run_cons.
    destruct (main_invariants a w Hl Hc) as (Hl' & Hc' & _).
    pose proof (main_versions B a w HB Hl Hc) as Hm. cbv zeta in Hm.
    destruct Hm as [Hcount Hcreated].
    destruct (IH (snd (main a w)) HB Hl' Hc' Hr') as [IH1 IH2].
    rewrite IH1, IH2, Hcount, Hcreated, archive_count_cons.
    destruct (archives B a).
    + split; [lia|]. rewrite <- app_assoc. f_equal.
      replace (Z.of_nat (1 + archive_count B l))
        with (Z.succ (Z.of_nat (archive_count B l))) by lia.
      rewrite (seqZ_cons (counter (disk w) B + 1)) by lia.
      rewrite fmap_cons. cbn [app]. f_equal.
      f_equal. f_equal; lia.
    + rewrite app_nil_r. split; [lia|]. do 3 f_equal; lia.
Qed.

(** * Further properties of the code *)

(** ** Versions and archive names *)

(** X1.  Along any run of invocations on a repository whose lock and catalog
    files can be opened, the [tar -czf] commands for one base name create,
    in this order, the blobs of the versions c+1, c+2, ..., c+k, where c is
    the counter of the name at the start and k the number of [archive]
    invocations for it; the counter ends at c+k.  Nothing else moves the
    counter: not a failing [tar], not a restore, not an eviction. *)
Theorem X1_versions_consecutive r B l w :
  B <> "" -> lock_ok w -> catalog_ok (disk w) ->
  Forall (fun a => root a = r) l ->
  counter (disk (run l w)) B = counter (disk w) B + Z.of_nat (archive_count B l) /\
  created B (calls (run l w)) =
    (created B (calls w) ++
     ((fun v => Py.join r (archive_name B v)) <$>
        seqZ (counter (disk w) B + 1) (Z.of_nat (archive_count B l))))%list.
Proof. intros. by apply run_versions. Qed.

Lemma X1_versions_consecutive_witness :
  let l := [Scenario.archive_A; Scenario.archive_B;
            Scenario.invoke (Restore "A" None None 0);
            Scenario.invoke (Archive "/tmp/A" "2020-01-01 00:00:09"
                               (Tar 2 None));
            Scenario.invoke (Archive "/srv/A" "2020-01-01 00:00:10"
                               (Scenario.blob 1))] in
  counter (disk (run l fresh)) "A" = 3 /\
  created "A" (calls (run l fresh)) =
    ["/repo/A-1.tar.gz"; "/repo/A-2.tar.gz"; "/repo/A-3.tar.gz"].
Proof.
  intros l.
  destruct (X1_versions_consecutive "/repo" "A" l fresh) as [H1 H2];
    [discriminate | apply fresh_ok | apply fresh_ok
    | unfold l; repeat constructor |].
  split; [rewrite H1|rewrite H2]; vm_compute; reflexivity.
Defined.

Lemma NoDup_fmap_determined {A K1 K2} (f : A -> K1) (g : A -> K2) (l : list A) :
  (forall x y, x ∈ l -> y ∈ l -> g x = g y -> f x = f y) ->
  NoDup (f <$> l) -> NoDup (g <$> l).
Proof.
  induction l as [|a l IH]; intros Hdet Hnd; [constructor|].
  rewrite fmap_cons in *. apply NoDup_cons in Hnd as [Hnotin Hnd].
  apply NoDup_cons. split.
  - intros Hin. apply Hnotin. apply list_elem_of_fmap in Hin as (y & Hy & Hyl).
    apply list_elem_of_fmap. exists y. split; [|done].
    apply Hdet; [set_solver|set_solver|done].
  - apply IH; [|done]. intros x y Hx Hy. apply Hdet; set_solver.
Qed.

Lemma catalog_ok_rows d :
  catalog_ok d ->
  NoDup ((fun r => (Item.name r, Item.version r)) <$> Db.items d) /\
  NoDup (Item.archive <$> Db.items d) /\
  forall r, r ∈ Db.items d ->
    1 <= Item.version r <= counter d (Item.name r) /\
    Item.archive r = archive_name (Item.name r) (Item.version r).
Proof.
  intros (Hnd & Hnn & Hr).
  assert (forall r, r ∈ Db.items d ->
    1 <= Item.version r <= counter d (Item.name r) /\
    Item.archive r = archive_name (Item.name r) (Item.version r)) as Hrows.
  { intros r Hin. apply Hr. apply elem_of_idents. eauto. }
  assert (NoDup ((fun r => (Item.name r, Item.version r)) <$> Db.items d)) as Hkeys.
  { unfold idents in Hnd. rewrite <- list_fmap_compose in Hnd. exact Hnd. }
  split; [done|]. split; [|done].
  apply (NoDup_fmap_determined (fun r => (Item.name r, Item.version r)));
    [|done].
  intros x y Hx Hy E.
  destruct (Hrows x Hx) as [Hvx Hax]. destruct (Hrows y Hy) as [Hvy Hay].
  rewrite Hax, Hay in E. apply archive_name_inj in E as [-> ->]; [done|lia..].
Qed.

(** X2.  In every catalog reached from a fresh repository, no two items have
    the same name and version, no two items have the same archive file name,
    and every item has a version from 1 up to the counter of its name and the
    archive file name [name-version.tar.gz]: version 0 is never given to an
    item. *)
Theorem X2_catalog_invariant l :
  let d := disk (run l fresh) in
  NoDup ((fun r => (Item.name r, Item.version r)) <$> Db.items d) /\
  NoDup (Item.archive <$> Db.items d) /\
  forall r, r ∈ Db.items d ->
    1 <= Item.version r <= counter d (Item.name r) /\
    Item.archive r = archive_name (Item.name r) (Item.version r).
Proof.
  cbv zeta. apply catalog_ok_rows.
  destruct fresh_ok as [Hl Hc]. by destruct (run_invariants l fresh Hl Hc).
Qed.

Lemma basename_nonempty source : Py.basename source <> "" -> source <> "".
Proof. by intros H ->. Qed.

(** X3.  An [archive] invocation whose [tar] exits with 0, on a repository
    that can be opened and whose catalog satisfies the invariant, runs [tar]
    for the next version of the base name and inserts the row of that version
    with the archive file name [base-version.tar.gz]; the insert is never
    refused by the constraints of table [items].  For a name without a
    counter row the version is 1. *)
Theorem X3_archive_inserts_next_version args source now tar w :
  cmd args = Archive source now tar ->
  Py.basename source <> "" ->
  tar_returncode tar = 0 ->
  lock_ok w -> catalog_ok (disk w) ->
  let B := Py.basename source in
  let v := counter (disk w) B + 1 in
  let w' := snd (main args w) in
  calls w' = (calls w ++ [tar_create_command (root args) source v])%list /\
  idents (disk w') = (idents (disk w) ++ [(B, v, archive_name B v)])%list /\
  counter (disk w') B = v /\
  (Db.versions (disk w) !! B = None ->
   v = 1 /\ archive_name B v = B +:+ "-1.tar.gz").
Proof.
  intros Hc HB Hrc Hl Hok. cbv zeta.
  pose proof (main_archive args w source now tar Hl Hc) as H. cbv zeta in H.
  destruct H as (_ & _ & H).
  rewrite issue_lookup_same in H by done.
  destruct H as (Hv & Hcalls & Hor).
  split; [done|]. split; [|split].
  - destruct Hor as [(Hi & _)|(_ & [Hno|Hno])]; [done|done|].
    destruct Hno. apply items_accept_new; try done.
    + by apply basename_nonempty.
    + by apply issue_lookup_same.
  - unfold counter at 1. by rewrite Hv, issue_lookup_same.
  - intros Hnone. unfold counter. rewrite Hnone. by cbn.
Qed.

Lemma X3_archive_inserts_next_version_witness :
  let w := run [Scenario.archive_A] fresh in
  let w' := snd (main Scenario.archive_A w) in
  calls w' =
    (calls w ++ [tar_create_command "/repo" "/home/u/A" 2])%list /\
  idents (disk w') = (idents (disk w) ++ [("A", 2, "A-2.tar.gz")])%list /\
  counter (disk w') "A" = 2.
Proof.
  intros w w'.
  destruct (X3_archive_inserts_next_version Scenario.archive_A "/home/u/A"
              "2020-01-01 00:00:01" (Scenario.blob (4 * Scenario.MB)) w)
    as (H1 & H2 & H3 & _);
    [reflexivity | discriminate | reflexivity
    | apply run_invariants; apply fresh_ok
    | apply run_invariants; apply fresh_ok |].
  repeat split; assumption.
Defined.

(** X4.  Two archive file names built from a name and a version that is not
    negative are equal only when the names and the versions are: the blob of
    one item is never the blob of another. *)
Theorem X4_archive_names_distinct n1 v1 n2 v2 :
  0 <= v1 -> 0 <= v2 ->
  archive_name n1 v1 = archive_name n2 v2 -> n1 = n2 /\ v1 = v2.
Proof. apply archive_name_inj. Qed.

Lemma X4_archive_names_distinct_witness :
  archive_name "x" 11 <> archive_name "x-1" 1.
Proof.
  intros E.
  destruct (X4_archive_names_distinct "x" 11 "x-1" 1) as [Hn _];
    [lia | lia | exact E | discriminate Hn].
Defined.

(** ** A failing [tar] *)




(** ** [restore] on its row *)





